(** * Telemetry plotting scripts: a shallow embedding of their data pipeline

    The repository is six stand-alone scripts.  Each one reads [stats.csv]
    into a pandas [DataFrame], transforms it with a handful of pandas
    operations and hands columns to the plotting backend.  This file embeds

    - the pandas operations the scripts call ([df[c]], [df[c] = s],
      [df[mask]], [isin], [groupby(..).tail(1)], [groupby(..)[c].mean()],
      [-], [/], [clip(lower=0)], [min], [max], [to_datetime(errors="coerce")],
      [read_csv(parse_dates=..)]), with the semantics pandas documents for
      them, over columns of dtype int64, float64, object and datetime64;
    - the four scripts that compute something before plotting
      ([Trabalho-1], [trabalho-5], [trabalho-11], [trabalho-11/src]),
      statement by statement, in an error monad whose failures are the
      exceptions the statements can raise.

    A float64 cell is a primitive binary64 float, NaN being pandas' missing
    value; an int64 cell is an integer with its wrap-around written out. *)

From Stdlib Require Import ZArith List String Ascii Bool Lia Floats.
From Stdlib Require Import DecimalString.
From Stdlib Require Import Permutation Sorted.
Import ListNotations.

(** ** Errors *)

(** [KeyErrors] is the [KeyError] of a selection by a list of labels: it
    names every label that is missing. *)
Inductive error : Type :=
| KeyError (column : string)
| KeyErrors (columns : list string)
| TypeError
| ValueError.

Inductive result (A : Type) : Type :=
| Ok (a : A)
| Raise (e : error).

Arguments Ok {A} a.
Arguments Raise {A} e.

Definition bind {A B : Type} (m : result A) (k : A -> result B) : result B :=
  match m with
  | Ok a => k a
  | Raise e => Raise e
  end.

Notation "x <- m ;; k" := (bind m (fun x => k))
  (at level 61, m at next level, right associativity).

(** ** Cells *)

(** int64: two's complement on 64 bits. *)
Module I64.

Definition min_int : Z := - 2 ^ 63.
Definition max_int : Z := 2 ^ 63 - 1.

Definition in_range (z : Z) : Prop := (min_int <= z <= max_int)%Z.

Definition wrap (z : Z) : Z := ((z + 2 ^ 63) mod 2 ^ 64 - 2 ^ 63)%Z.

(** numpy's array subtraction: silent wrap-around. *)
Definition sub (a b : Z) : Z := wrap (a - b).

End I64.

(** float64: the primitive binary64 floats. *)
Module F64.

Definition isna (x : float) : bool := is_nan x.
Definition notna (x : float) : bool := negb (is_nan x).

(** The cast int64 -> float64 (round to nearest, ties to even). *)
Definition of_int64 (z : Z) : float :=
  SF2Prim (binary_normalize prec emax z 0 false).

Definition of_nat (n : nat) : float := of_int64 (Z.of_nat n).

(** [x == 0.0]: true of both zeros. *)
Definition is_zero (x : float) : bool := (x =? 0)%float.

(** Hash-table keys identify the two zeros. *)
Definition canon (x : float) : float := if is_zero x then 0%float else x.

End F64.

(** One cell, as [s.iat[i]] shows it.  [NA] is the missing value: NaN in a
    float64 or object column, NaT in a datetime64 column. *)
Inductive scalar : Type :=
| NA
| SInt (z : Z)
| SFloat (f : float)
| SStr (s : string)
| STime (ns : Z).

Definition scalar_eqb (a b : scalar) : bool :=
  match a, b with
  | NA, NA => true
  | SInt x, SInt y => Z.eqb x y
  | SFloat x, SFloat y => PrimFloat.Leibniz.eqb x y
  | SStr x, SStr y => String.eqb x y
  | STime x, STime y => Z.eqb x y
  | _, _ => false
  end.

(** The order [sort_values] and [groupby(sort=True)] use inside one column.
    Cells of one column share a constructor; across constructors the order
    is by dtype, which keeps it total. *)
Definition dtype_rank (a : scalar) : nat :=
  match a with
  | SInt _ => 0
  | SFloat _ => 1
  | SStr _ => 2
  | STime _ => 3
  | NA => 4
  end.

Definition scalar_leb (a b : scalar) : bool :=
  match a, b with
  | SInt x, SInt y => Z.leb x y
  | SFloat x, SFloat y => (x <=? y)%float
  | SStr x, SStr y => String.leb x y
  | STime x, STime y => Z.leb x y
  | _, _ => Nat.leb (dtype_rank a) (dtype_rank b)
  end.

(** ** Columns and frames *)

Inductive Series : Type :=
| Int64 (v : list Z)
| Float64 (v : list float)
| Object (v : list (option string))
| Datetime (v : list (option Z)).

Definition DataFrame : Type := list (string * Series).

Fixpoint zip_with {A B C : Type} (f : A -> B -> C) (l : list A) (m : list B)
  : list C :=
  match l, m with
  | x :: l', y :: m' => f x y :: zip_with f l' m'
  | _, _ => []
  end.

(** Boolean-mask selection: the elements whose mask bit is set. *)
Fixpoint compress {A : Type} (mask : list bool) (l : list A) : list A :=
  match mask, l with
  | b :: mask', x :: l' =>
      if b then x :: compress mask' l' else compress mask' l'
  | _, _ => []
  end.

(** The positions at which a mask is set, counted from [i]. *)
Fixpoint where_from (i : nat) (mask : list bool) : list nat :=
  match mask with
  | [] => []
  | b :: mask' =>
      if b then i :: where_from (S i) mask' else where_from (S i) mask'
  end.

Definition flatnonzero (mask : list bool) : list nat := where_from 0 mask.

(** Positional selection. *)
Definition take {A : Type} (idx : list nat) (l : list A) : list A :=
  flat_map (fun i => match nth_error l i with Some x => [x] | None => [] end)
           idx.

Module Pandas.

Definition float_cell (f : float) : scalar :=
  if F64.isna f then NA else SFloat f.

Definition object_cell (o : option string) : scalar :=
  match o with Some s => SStr s | None => NA end.

Definition time_cell (o : option Z) : scalar :=
  match o with Some t => STime t | None => NA end.

(** [s.values], cell by cell. *)
Definition values (s : Series) : list scalar :=
  match s with
  | Int64 v => map SInt v
  | Float64 v => map float_cell v
  | Object v => map object_cell v
  | Datetime v => map time_cell v
  end.

Definition size (s : Series) : nat := List.length (values s).

(** [s.iat[i]] *)
Definition iat (s : Series) (i : nat) : option scalar :=
  nth_error (values s) i.

(** [s[mask]] *)
Definition mask_series (mask : list bool) (s : Series) : Series :=
  match s with
  | Int64 v => Int64 (compress mask v)
  | Float64 v => Float64 (compress mask v)
  | Object v => Object (compress mask v)
  | Datetime v => Datetime (compress mask v)
  end.

(** [df.columns] *)
Definition columns (df : DataFrame) : list string := map fst df.

(** [df[c]]: raises [KeyError] when there is no such column. *)
Fixpoint getitem (df : DataFrame) (c : string) : result Series :=
  match df with
  | [] => Raise (KeyError c)
  | (c', s) :: df' => if String.eqb c' c then Ok s else getitem df' c
  end.

(** [df[c] = s]: replaces the column in place when it exists, appends it
    after the last column otherwise. *)
Fixpoint setitem (df : DataFrame) (c : string) (s : Series) : DataFrame :=
  match df with
  | [] => [(c, s)]
  | (c', s') :: df' =>
      if String.eqb c' c then (c', s) :: df'
      else (c', s') :: setitem df' c s
  end.

(** [df[mask]]: every column filtered by the same mask. *)
Definition mask_rows (mask : list bool) (df : DataFrame) : DataFrame :=
  map (fun cs => (fst cs, mask_series mask (snd cs))) df.

Definition has_column (df : DataFrame) (c : string) : bool :=
  existsb (String.eqb c) (columns df).

(** The columns [cs] that [df] has, in the order of [cs]. *)
Fixpoint reindex (df : DataFrame) (cs : list string) : DataFrame :=
  match cs with
  | [] => []
  | c :: cs' =>
      match getitem df c with
      | Ok s => (c, s) :: reindex df cs'
      | Raise _ => reindex df cs'
      end
  end.

(** [df[[c1, .., cn]]]: raises a [KeyError] that names every missing
    column. *)
Definition select_columns (df : DataFrame) (cs : list string)
  : result DataFrame :=
  match filter (fun c => negb (has_column df c)) cs with
  | [] => Ok (reindex df cs)
  | missing => Raise (KeyErrors missing)
  end.

(** Every column has [n] rows. *)
Definition nrows (df : DataFrame) (n : nat) : Prop :=
  Forall (fun cs => size (snd cs) = n) df.

(** A cell is one of the string labels. *)
Definition has_label (labels : list string) (x : scalar) : bool :=
  match x with
  | SStr t => existsb (String.eqb t) labels
  | _ => false
  end.

(** [s.isin(labels)] for a list of string labels. *)
Definition isin (s : Series) (labels : list string) : list bool :=
  map (has_label labels) (values s).

(** *** Arithmetic *)

Definition is_missing (o : option string) : bool :=
  match o with Some _ => false | None => true end.

(** The cells of a column as arithmetic reads them.  An object column is
    computed on cell by cell: a missing cell is a NaN and a text cell raises,
    so that a column without text (that of a table without rows, say) goes
    through.  What comes out of such a column is all missing; it is given
    here as float64. *)
Definition as_float (s : Series) : result (list float) :=
  match s with
  | Int64 v => Ok (map F64.of_int64 v)
  | Float64 v => Ok v
  | Object v =>
      if forallb is_missing v then Ok (map (fun _ => nan) v)
      else Raise TypeError
  | Datetime _ => Raise TypeError
  end.

(** [a - b]: int64 when both are, float64 when either is. *)
Definition sub (a b : Series) : result Series :=
  match a, b with
  | Int64 x, Int64 y => Ok (Int64 (zip_with I64.sub x y))
  | _, _ =>
      x <- as_float a ;;
      y <- as_float b ;;
      Ok (Float64 (zip_with PrimFloat.sub x y))
  end.

(** [a / b]: true division, always float64. *)
Definition truediv (a b : Series) : result Series :=
  x <- as_float a ;;
  y <- as_float b ;;
  Ok (Float64 (zip_with PrimFloat.div x y)).

(** [x.clip(lower=lo)] on one float64 cell: a missing cell stays missing,
    a cell [>= lo] is kept, any other is replaced by [lo]. *)
Definition clip_lower_float (lo : float) (x : float) : float :=
  if (F64.isna x || (lo <=? x)%float)%bool then x else lo.

(** [s.clip(lower=lo)] for an integer bound.  In an object column a
    missing cell stays missing and a text cell, compared with the bound,
    raises. *)
Definition clip_lower (s : Series) (lo : Z) : result Series :=
  match s with
  | Int64 v => Ok (Int64 (map (Z.max lo) v))
  | Float64 v => Ok (Float64 (map (clip_lower_float (F64.of_int64 lo)) v))
  | Object v => if forallb is_missing v then Ok s else Raise TypeError
  | Datetime _ => Raise TypeError
  end.

(** *** Grouping *)

(** The key a row is grouped under; rows with a missing key are dropped
    ([dropna=True], the default).  The two zeros of float64 are one key;
    the label a group is shown under is the key cell of its first row
    ([group_label] below). *)
Definition group_key (x : scalar) : option scalar :=
  match x with
  | NA => None
  | SFloat f => Some (SFloat (F64.canon f))
  | _ => Some x
  end.

Definition group_keys (s : Series) : list (option scalar) :=
  map group_key (values s).

Definition has_key (k : scalar) (o : option scalar) : bool :=
  match o with
  | Some k' => scalar_eqb k k'
  | None => false
  end.

Fixpoint present {A : Type} (l : list (option A)) : list A :=
  match l with
  | [] => []
  | Some x :: l' => x :: present l'
  | None :: l' => present l'
  end.

(** The distinct keys, in the order they are first seen. *)
Fixpoint unique (l : list scalar) : list scalar :=
  match l with
  | [] => []
  | x :: l' => x :: filter (fun y => negb (scalar_eqb x y)) (unique l')
  end.

Fixpoint insert_sorted (x : scalar) (l : list scalar) : list scalar :=
  match l with
  | [] => [x]
  | y :: l' =>
      if scalar_leb x y then x :: y :: l' else y :: insert_sorted x l'
  end.

Definition sort_keys (l : list scalar) : list scalar :=
  fold_right insert_sorted [] l.

(** [groupby(key).indices]: each distinct key with the positions of its
    rows, the keys in ascending order ([sort=True], the default). *)
Definition indices (key : Series) : list (scalar * list nat) :=
  let ks := group_keys key in
  map (fun k => (k, flatnonzero (map (has_key k) ks)))
      (sort_keys (unique (present ks))).

(** [groupby(key).cumcount(ascending=False)]: for each row, how many
    later rows carry its key; nothing for a dropped row. *)
Fixpoint cumcount_desc (ks : list (option scalar)) : list (option nat) :=
  match ks with
  | [] => []
  | o :: ks' =>
      match o with
      | Some k => Some (List.length (filter (has_key k) ks'))
      | None => None
      end :: cumcount_desc ks'
  end.

Definition within_last (n : nat) (c : option nat) : bool :=
  match c with
  | Some c => Nat.ltb c n
  | None => false
  end.

(** The mask of [groupby(key).tail(n)]: the rows within the last [n] of
    their group.  [tail] returns exactly these rows of the frame, in the
    frame's own row order. *)
Definition tail_mask (n : nat) (key : Series) : list bool :=
  map (within_last n) (cumcount_desc (group_keys key)).

Definition groupby_tail (n : nat) (df : DataFrame) (c : string)
  : result DataFrame :=
  key <- getitem df c ;;
  Ok (mask_rows (tail_mask n key) df).

(** *** Reductions *)

(** The state of the library's mean over one group ([group_mean]): the
    number of observations, the running sum and the compensation term of
    Kahan's summation. *)
Record mean_state : Type := {
  nobs : nat;
  sumx : float;
  compensation : float
}.

(** One cell: a missing cell is skipped; a present one is added with the
    rounding error of the previous additions taken off, and the error of
    this addition is kept, or dropped when it is not a number (an infinite
    sum). *)
Definition mean_step (acc : mean_state) (x : float) : mean_state :=
  if F64.isna x then acc
  else
    let y := (x - compensation acc)%float in
    let t := (sumx acc + y)%float in
    let c := (t - sumx acc - y)%float in
    {| nobs := S (nobs acc);
       sumx := t;
       compensation := if F64.isna c then 0%float else c |}.

(** Mean of the present cells, NaN when there is none. *)
Definition nanmean (v : list float) : float :=
  let acc := fold_left mean_step v
               {| nobs := 0; sumx := 0%float; compensation := 0%float |} in
  match nobs acc with
  | 0 => nan
  | S _ => (sumx acc / F64.of_nat (nobs acc))%float
  end.

(** The label of a group: the key cell of its first row.  (The two zeros
    of float64 are one key, labelled by the one met first.) *)
Definition group_label (cells : list scalar) (k : scalar) : scalar :=
  match find (fun x => has_key k (group_key x)) cells with
  | Some x => x
  | None => k
  end.

(** [groupby(key)[val].mean().reset_index()]: one row per key. *)
Definition groupby_mean (key val : Series)
  : result (list (scalar * float)) :=
  v <- as_float val ;;
  Ok (map (fun g => (group_label (values key) (fst g),
                     nanmean (take (snd g) v)))
          (indices key)).

Definition fmin (a b : float) : float := if (b <? a)%float then b else a.
Definition fmax (a b : float) : float := if (a <? b)%float then b else a.

(** [s.min()] and [s.max()] on a float64 column: over the present cells,
    NaN when there is none. *)
Definition series_min (v : list float) : float :=
  match filter F64.notna v with
  | [] => nan
  | x :: l => fold_left fmin l x
  end.

Definition series_max (v : list float) : float :=
  match filter F64.notna v with
  | [] => nan
  | x :: l => fold_left fmax l x
  end.

(** *** Timestamps *)

Section Timestamps.

(** The library's conversion of one cell of a column to an instant
    (nanoseconds since the epoch), [None] when the cell does not parse.
    It is given the column, from which the format is inferred. *)
Variable parse : Series -> scalar -> option Z.

Definition parse_cell (s : Series) (x : scalar) : option Z :=
  match x with
  | NA => None
  | _ => parse s x
  end.

(** [pd.to_datetime(s, errors="coerce")]: a cell that does not parse
    becomes NaT. *)
Definition to_datetime_coerce (s : Series) : Series :=
  match s with
  | Datetime _ => s
  | _ => Datetime (map (parse_cell s) (values s))
  end.

Definition parses (s : Series) (x : scalar) : bool :=
  match x with
  | NA => true
  | _ => match parse s x with Some _ => true | None => false end
  end.

(** A date column is not typed by inference: the conversion reads the
    text of its cells.  An integer cell stands for its decimal digits; a
    cell with a decimal fraction, whose spelling its value does not fix, is
    left to [parse] as the number it is. *)
Definition as_text (s : Series) : Series :=
  match s with
  | Int64 v =>
      Object (map (fun z => Some (NilZero.string_of_int (Z.to_int z))) v)
  | _ => s
  end.

(** The conversion [read_csv(parse_dates=[c])] applies to column [c]:
    when a cell does not parse the column is returned unaltered, as the
    text it is. *)
Definition parse_dates_column (s : Series) : Series :=
  match s with
  | Datetime _ => s
  | _ =>
      let t := as_text s in
      if forallb (parses t) (values t)
      then Datetime (map (parse_cell t) (values t))
      else t
  end.

(** [pd.read_csv(.., parse_dates=[c])], from the frame type inference
    produced: a missing column is a [ValueError]. *)
Definition read_csv_parse_dates (df : DataFrame) (c : string)
  : result DataFrame :=
  match getitem df c with
  | Ok s => Ok (setitem df c (parse_dates_column s))
  | Raise _ => Raise ValueError
  end.

End Timestamps.

(** *** Sorting *)

(** [s.take(idx)] *)
Definition take_series (idx : list nat) (s : Series) : Series :=
  match s with
  | Int64 v => Int64 (take idx v)
  | Float64 v => Float64 (take idx v)
  | Object v => Object (take idx v)
  | Datetime v => Datetime (take idx v)
  end.

(** [df.take(idx)]: the rows at the positions [idx], in this order. *)
Definition take_rows (idx : list nat) (df : DataFrame) : DataFrame :=
  map (fun cs => (fst cs, take_series idx (snd cs))) df.

(** [idx] lists each of the positions [0 .. n-1] once. *)
Definition is_order (idx : list nat) (n : nat) : bool :=
  Nat.eqb (List.length idx) n
  && forallb (fun i => existsb (Nat.eqb i) idx) (seq 0 n).

Section Sorting.

(** The library's sorting permutation of a column ([nargsort]): the
    positions of its cells in ascending order, missing cells last.  The
    default sort is not stable, so the order of equal cells is the
    library's choice. *)
Variable argsort : Series -> list nat.

(** The order the rows are taken in.  A sort lists every row once; a
    parameter that does not is no sort, and the rows are then left as they
    stand. *)
Definition order (s : Series) : list nat :=
  if is_order (argsort s) (size s) then argsort s else seq 0 (size s).

(** [df.sort_values(c)]: the rows taken in the order of the sorting
    permutation of column [c]. *)
Definition sort_values (df : DataFrame) (c : string) : result DataFrame :=
  s <- getitem df c ;;
  Ok (take_rows (order s) df).

End Sorting.

End Pandas.

Import Pandas.

(** ** The scripts *)

(** [Trabalho-1/plot_python.py] (and, for lines 4 to 6, [trabalho-4] and
    [trabalho-5]): the timestamp column is converted after the read. *)
Module Trabalho1.

Section Script.

Variable parse : Series -> scalar -> option Z.

(** Lines 4 to 6, from the frame [read_csv] inferred. *)
Definition ingest (df : DataFrame) : result DataFrame :=
  ts <- getitem df "timestamp" ;;
  Ok (setitem df "timestamp" (to_datetime_coerce parse ts)).

Record Figures : Type := {
  clicks : list (Series * Series);
  trajectory : Series * Series
}.

Definition line (df : DataFrame) (x y : string)
  : result (Series * Series) :=
  a <- getitem df x ;;
  b <- getitem df y ;;
  Ok (a, b).

Definition main (df : DataFrame) : result Figures :=
  df <- ingest df ;;
  dots <- line df "timestamp" "clicks_on_dots" ;;
  lines <- line df "timestamp" "clicks_on_lines" ;;
  total <- line df "timestamp" "number_of_clicks" ;;
  mouse <- line df "mouse_x" "mouse_y" ;;
  Ok {| clicks := [dots; lines; total]; trajectory := mouse |}.

End Script.

End Trabalho1.

(** [trabalho-5/plot_python.py]: mean cost per start-point count and per
    obstacle count, on two axes that share their y-limits. *)
Module Trabalho5.

(** One axis: the line drawn on it and the pair of limits handed to
    [set_ylim] (lines 29 and 44).  What the plotting backend does with
    them is outside the model. *)
Record Axes : Type := {
  line_x : list scalar;
  line_y : list float;
  ylim : float * float
}.

Section Script.

Variable parse : Series -> scalar -> option Z.

Definition main (df : DataFrame) : result (Axes * Axes) :=
  df <- Trabalho1.ingest parse df ;;
  start_points <- getitem df "start_points" ;;
  cost <- getitem df "time_to_finish_in_micros" ;;
  start_group <- groupby_mean start_points cost ;;
  obstacles_amount <- getitem df "obstacles_amount" ;;
  obstacle_group <- groupby_mean obstacles_amount cost ;;
  let y_min := fmin (series_min (map snd start_group))
                    (series_min (map snd obstacle_group)) in
  let y_max := fmax (series_max (map snd start_group))
                    (series_max (map snd obstacle_group)) in
  Ok ({| line_x := map fst start_group;
         line_y := map snd start_group;
         ylim := (y_min, y_max) |},
      {| line_x := map fst obstacle_group;
         line_y := map snd obstacle_group;
         ylim := (y_min, y_max) |}).

End Script.

End Trabalho5.

(** [trabalho-11/plot_python.py]: the extra steps agents made over the
    planned path length. *)
Module Trabalho11.

(** Lines 14 and 15.  They run on the frame already sorted by line 11;
    nothing below depends on the order of the rows. *)
Definition extra_steps (df : DataFrame) : result DataFrame :=
  made <- getitem df "how_many_steps_agents_made" ;;
  planned <- getitem df "total_agents_path_length" ;;
  diff <- sub made planned ;;
  let df := setitem df "extra_steps" diff in
  diff <- getitem df "extra_steps" ;;
  clipped <- clip_lower diff 0 ;;
  Ok (setitem df "extra_steps" clipped).

(** The lines the three figures draw, each an x column and a y column. *)
Record Figures : Type := {
  steps : list (Series * Series);
  extra : Series * Series;
  events : list (Series * Series)
}.

Section Script.

Variable parse : Series -> scalar -> option Z.
Variable argsort : Series -> list nat.

Definition main (df : DataFrame) : result Figures :=
  df <- read_csv_parse_dates parse df "timestamp" ;;
  df <- sort_values argsort df "timestamp" ;;
  df <- extra_steps df ;;
  made <- Trabalho1.line df "timestamp" "how_many_steps_agents_made" ;;
  planned <- Trabalho1.line df "timestamp" "total_agents_path_length" ;;
  extra_line <- Trabalho1.line df "timestamp" "extra_steps" ;;
  recalculations <-
    Trabalho1.line df "timestamp" "how_many_recalculations" ;;
  detections <- Trabalho1.line df "timestamp" "how_many_detections" ;;
  Ok {| steps := [made; planned];
        extra := extra_line;
        events := [recalculations; detections] |}.

End Script.

End Trabalho11.

(** [trabalho-11/src/plot_python.py]: the final row of each method, and
    four bar charts over these rows. *)
Module Trabalho11Src.

Definition methods : list string := ["GRID"; "PATH"; "ORCA"]%string.

Definition report : list string :=
  ["method_name"; "collisions"; "recalculations"; "total_steps";
   "total_path_length"; "actual_distance"; "reached_goal_count"]%string.

Record Bar : Type := {
  bar_x : Series;
  bar_height : Series
}.

Record Output : Type := {
  final : DataFrame;
  printed : DataFrame;
  charts : list Bar
}.

(** Line 8. *)
Definition select_methods (df : DataFrame) : result DataFrame :=
  m <- getitem df "method_name" ;;
  Ok (mask_rows (isin m methods) df).

(** Line 10. *)
Definition last_per_method (df : DataFrame) : result DataFrame :=
  groupby_tail 1 df "method_name".

(** Lines 51 to 53. *)
Definition path_efficiency (final : DataFrame) : result DataFrame :=
  planned <- getitem final "total_path_length" ;;
  actual <- getitem final "actual_distance" ;;
  ratio <- truediv planned actual ;;
  Ok (setitem final "path_efficiency" ratio).

Definition bar (final : DataFrame) (x height : string) : result Bar :=
  a <- getitem final x ;;
  b <- getitem final height ;;
  Ok {| bar_x := a; bar_height := b |}.

Section Script.

Variable parse : Series -> scalar -> option Z.

Definition main (df : DataFrame) : result Output :=
  df <- read_csv_parse_dates parse df "timestamp" ;;
  df <- select_methods df ;;
  final <- last_per_method df ;;
  printed <- select_columns final report ;;
  collisions <- bar final "method_name" "collisions" ;;
  cost <- bar final "method_name" "total_steps" ;;
  final <- path_efficiency final ;;
  efficiency <- bar final "method_name" "path_efficiency" ;;
  distance <- bar final "method_name" "actual_distance" ;;
  Ok {| final := final;
        printed := printed;
        charts := [collisions; cost; efficiency; distance] |}.

End Script.

End Trabalho11Src.

(** ** The specification's words

    The derivations and reductions as the specification phrases them, to be
    compared with what the scripts compute. *)
Module Spec.

(** Clipped non-negative difference: [max(0, a - b)]. *)
Definition clipped_difference (a b : Z) : Z := Z.max 0 (a - b).

(** The same over a difference [d] already computed in binary64. *)
Definition clipped_float (d : float) : float :=
  if (d <? 0)%float then 0%float else d.

(** A cell is negative: a missing cell is not. *)
Definition negative (x : scalar) : bool :=
  match x with
  | SInt z => Z.ltb z 0
  | SFloat f => (f <? 0)%float
  | _ => false
  end.

Definition is_numeric (s : Series) : bool :=
  match s with
  | Int64 _ | Float64 _ => true
  | Object _ | Datetime _ => false
  end.

Definition both_int64 (a b : Series) : bool :=
  match a, b with
  | Int64 _, Int64 _ => true
  | _, _ => false
  end.

(** The distinct keys in the order they are first seen is [Pandas.unique];
    this is the order of their last rows. *)
Fixpoint last_seen (l : list scalar) : list scalar :=
  match l with
  | [] => []
  | x :: l' =>
      if existsb (scalar_eqb x) l' then last_seen l' else x :: last_seen l'
  end.

(** Every key's rows are next to each other: a key that comes again comes
    again at once. *)
Fixpoint contiguous (l : list scalar) : bool :=
  match l with
  | [] => true
  | x :: l' =>
      (negb (existsb (scalar_eqb x) l')
       || match l' with
          | y :: _ => scalar_eqb x y
          | [] => true
          end)
      && contiguous l'
  end.

(** The rows are in timestamp order: every timestamp is valid and none is
    later than one below it. *)
Fixpoint chronological (ts : list (option Z)) : bool :=
  match ts with
  | [] => true
  | None :: _ => false
  | Some a :: ts' =>
      forallb (fun o => match o with
                        | Some b => Z.leb a b
                        | None => false
                        end) ts'
      && chronological ts'
  end.

(** The sum of integers, exactly. *)
Definition total (zs : list Z) : Z := fold_right Z.add 0%Z zs.

(** The sum of their absolute values, which bounds every partial sum. *)
Definition magnitude (zs : list Z) : Z :=
  fold_right (fun z acc => (Z.abs z + acc)%Z) 0%Z zs.

(** The arithmetic mean of integers with a single rounding: the exact sum
    over the count, divided in binary64. *)
Definition mean_of_integers (zs : list Z) : float :=
  (F64.of_int64 (total zs) / F64.of_nat (List.length zs))%float.

End Spec.

(** ** Integers in binary64

    The representation of an integer below 2^53: its binary digits shifted
    to fill the 53 bits of the mantissa. *)
Module Binary64.

Definition Z2SF (z : Z) : spec_float := binary_normalize prec emax z 0 false.

Definition shl (p : positive) (n : nat) : positive := Nat.iter n xO p.

Definition canonical (s : bool) (p : positive) : spec_float :=
  S754_finite s (shl p (Z.to_nat (53 - Zpos (digits2_pos p))))
    (Zpos (digits2_pos p) - 53).

Definition signed (s : bool) (p : positive) : Z := cond_Zopp s (Zpos p).

End Binary64.

(** ** Sample tables *)
Module Sample.

(** A date parser for the examples: [YYYY-MM-DD], at midnight UTC. *)
Definition digit (c : ascii) : option Z :=
  let n := Z.of_nat (nat_of_ascii c) in
  if ((48 <=? n) && (n <=? 57))%Z%bool then Some (n - 48)%Z else None.

Fixpoint number (acc : Z) (l : list ascii) : option Z :=
  match l with
  | [] => Some acc
  | c :: l' =>
      match digit c with
      | Some d => number (10 * acc + d)%Z l'
      | None => None
      end
  end.

Definition leap (y : Z) : bool :=
  ((y mod 4 =? 0) && (negb (y mod 100 =? 0) || (y mod 400 =? 0)))%Z%bool.

Definition month_length (y m : Z) : Z :=
  if (m =? 2)%Z then (if leap y then 29 else 28)%Z
  else if ((m =? 4) || (m =? 6) || (m =? 9) || (m =? 11))%Z%bool then 30%Z
  else 31%Z.

(** Days from 1970-01-01 to the civil date [y-m-d]. *)
Definition days_from_civil (y m d : Z) : Z :=
  let y' := (if m <=? 2 then y - 1 else y)%Z in
  let era := (y' / 400)%Z in
  let yoe := (y' - era * 400)%Z in
  let mp := (if m <=? 2 then m + 9 else m - 3)%Z in
  let doy := ((153 * mp + 2) / 5 + d - 1)%Z in
  let doe := (yoe * 365 + yoe / 4 - yoe / 100 + doy)%Z in
  (era * 146097 + doe - 719468)%Z.

Definition iso_date (_ : Series) (x : scalar) : option Z :=
  match x with
  | SStr s =>
      match list_ascii_of_string s with
      | [y1; y2; y3; y4; "-"%char; m1; m2; "-"%char; d1; d2] =>
          match number 0 [y1; y2; y3; y4], number 0 [m1; m2],
                number 0 [d1; d2] with
          | Some y, Some m, Some d =>
              if ((1 <=? m) && (m <=? 12) && (1 <=? d)
                  && (d <=? month_length y m))%Z%bool
              then Some (days_from_civil y m d * 86400000000000)%Z
              else None
          | _, _, _ => None
          end
      | _ => None
      end
  | _ => None
  end.

(** Two rows from the specification's examples and one at the edge of
    int64. *)
Definition steps : DataFrame :=
  [("how_many_steps_agents_made"%string,
    Int64 [3; 10; -9223372036854775808]%Z);
   ("total_agents_path_length"%string, Int64 [10; 3; 1]%Z)].

(** A final row whose agent never moved. *)
Definition stalled : DataFrame :=
  [("method_name"%string, Object [Some "GRID"%string]);
   ("total_path_length"%string, Int64 [12]%Z);
   ("actual_distance"%string, Int64 [0]%Z)].

(** The specification's end-to-end scenario, with a row of a fourth
    method. *)
Definition runs : DataFrame :=
  [("timestamp"%string,
    Object [Some "2024-01-01"; Some "2024-01-02"; Some "2024-01-01";
            Some "2024-01-02"]%string);
   ("method_name"%string,
    Object [Some "GRID"; Some "GRID"; Some "PATH"; Some "RRT"]%string);
   ("collisions"%string, Int64 [3; 5; 1; 8]%Z);
   ("recalculations"%string, Int64 [0; 1; 0; 2]%Z);
   ("total_steps"%string, Int64 [10; 20; 12; 30]%Z);
   ("total_path_length"%string, Int64 [12; 12; 9; 7]%Z);
   ("actual_distance"%string, Float64 [6; 12; 9; 7]%float);
   ("reached_goal_count"%string, Int64 [0; 1; 1; 1]%Z)].

(** One method's rows, not in timestamp order: instants 3, 1, 2 with
    collision totals 9, 5, 7. *)
Definition unsorted : DataFrame :=
  [("timestamp"%string, Datetime [Some 3; Some 1; Some 2]%Z);
   ("method_name"%string,
    Object [Some "GRID"; Some "GRID"; Some "GRID"]%string);
   ("collisions"%string, Int64 [9; 5; 7]%Z)].

(** The same rows in timestamp order. *)
Definition sorted : DataFrame :=
  [("timestamp"%string, Datetime [Some 1; Some 2; Some 3]%Z);
   ("method_name"%string,
    Object [Some "GRID"; Some "GRID"; Some "GRID"]%string);
   ("collisions"%string, Int64 [5; 7; 9]%Z)].

(** Two methods logging in turn. *)
Definition interleaved : DataFrame :=
  [("timestamp"%string, Datetime [Some 1; Some 1; Some 2]%Z);
   ("method_name"%string,
    Object [Some "GRID"; Some "PATH"; Some "GRID"]%string);
   ("collisions"%string, Int64 [3; 1; 5]%Z)].

(** The specification's scenario: GRID, GRID, PATH. *)
Definition scenario : DataFrame :=
  [("timestamp"%string, Datetime [Some 1; Some 2; Some 1]%Z);
   ("method_name"%string,
    Object [Some "GRID"; Some "GRID"; Some "PATH"]%string);
   ("collisions"%string, Int64 [3; 5; 1]%Z)].

(** Costs per start-point count: a group of three values, and one whose
    values are all missing. *)
Definition costs : DataFrame :=
  [("timestamp"%string, Object [None; None; None; None; None]);
   ("start_points"%string, Int64 [5; 3; 5; 3; 5]%Z);
   ("obstacles_amount"%string, Int64 [1; 1; 1; 2; 1]%Z);
   ("time_to_finish_in_micros"%string,
    Float64 [10; nan; 20; nan; 30]%float)].

(** A log with a corrupted timestamp. *)
Definition log : DataFrame :=
  [("timestamp"%string, Object [Some "2024-01-01"; Some "garbage"]%string);
   ("clicks_on_dots"%string, Int64 [1; 2]%Z)].

(** A log of two ticks, the later one first, with every column the
    scripts of [trabalho-11] and [Trabalho-1] read. *)
Definition ticks : DataFrame :=
  [("timestamp"%string,
    Object [Some "2024-01-02"; Some "2024-01-01"]%string);
   ("how_many_steps_agents_made"%string, Float64 [12; nan]%float);
   ("total_agents_path_length"%string, Int64 [9; 9]%Z);
   ("how_many_recalculations"%string, Int64 [2; 1]%Z);
   ("how_many_detections"%string, Int64 [4; 3]%Z);
   ("clicks_on_dots"%string, Int64 [1; 2]%Z);
   ("clicks_on_lines"%string, Int64 [0; 1]%Z);
   ("number_of_clicks"%string, Int64 [1; 3]%Z);
   ("mouse_x"%string, Int64 [10; 20]%Z);
   ("mouse_y"%string, Int64 [5; 6]%Z)].

(** A sorting permutation for the examples: reverses two rows. *)
Definition swap (_ : Series) : list nat := [1; 0].


(** A table that already has a column named like the derived one. *)
Definition derived : DataFrame :=
  [("extra_steps"%string, Int64 [100; 100]%Z);
   ("how_many_steps_agents_made"%string, Int64 [3; 10]%Z);
   ("total_agents_path_length"%string, Int64 [10; 3]%Z)].

(** A table without rows, as [read_csv] types it: every column is an
    empty object column. *)
Definition header_only : DataFrame :=
  [("timestamp"%string, Object []);
   ("how_many_steps_agents_made"%string, Object []);
   ("total_agents_path_length"%string, Object []);
   ("how_many_recalculations"%string, Object []);
   ("how_many_detections"%string, Object [])].


End Sample.

(** ** Orders *)

(** A comparison that says "at most". *)
Definition below (c : comparison) : bool :=
  match c with Gt => false | _ => true end.

(** A key as grouping produces it: never a NaN. *)
Definition valid_key (x : scalar) : Prop :=
  match x with
  | SFloat f => is_nan f = false
  | _ => True
  end.

Definition ascending (a b : scalar) : Prop := scalar_leb a b = true.

(** * Facts *)

(** ** The error monad *)

Lemma bind_ok {A B : Type} (m : result A) (k : A -> result B) (b : B) :
  bind m k = Ok b -> exists a, m = Ok a /\ k a = Ok b.
Proof.
  destruct m as [a | e]; simpl; intros H; [eauto | discriminate].
Qed.

Ltac inv_bind H :=
  let a := fresh "x" in
  let Ha := fresh "E" in
  apply bind_ok in H; destruct H as (a & Ha & H).

Ltac inv_ok :=
  repeat match goal with
         | H : Ok _ = Ok _ |- _ => inversion H; subst; clear H
         | H : bind _ _ = Ok _ |- _ => inv_bind H
         end.

(** ** Order and division on binary64 *)

Section SpecFloatOrder.

Lemma SFcompare_refl s : s <> S754_nan -> SFcompare s s = Some Eq.
Proof.
  destruct s as [[] | [] | | [] m e]; cbn; try congruence; intros _;
    rewrite Z.compare_refl, ?Pos.compare_cont_refl; reflexivity.
Qed.

Lemma SFcompare_none a b :
  SFcompare a b = None <-> a = S754_nan \/ b = S754_nan.
Proof.
  destruct a as [[] | [] | | [] ma ea], b as [[] | [] | | [] mb eb];
    cbn; split; intros H; try discriminate; auto;
    try (destruct H; discriminate).
Qed.

Lemma SFcompare_antisym a b c :
  SFcompare a b = Some c -> SFcompare b a = Some (CompOpp c).
Proof.
  destruct a as [[] | [] | | [] ma ea], b as [[] | [] | | [] mb eb];
    cbn; intros H; inversion H; subst; clear H; try reflexivity;
    rewrite (Z.compare_antisym ea eb); destruct (ea ?= eb)%Z; cbn;
    try reflexivity;
    change (Pos.compare_cont Eq) with Pos.compare;
    rewrite (Pos.compare_antisym ma mb);
    destruct (ma ?= mb)%positive; reflexivity.
Qed.


End SpecFloatOrder.

Section FloatFacts.

Local Open Scope float_scope.

Lemma is_nan_spec x : is_nan x = true <-> Prim2SF x = S754_nan.
Proof.
  unfold is_nan. rewrite eqb_spec. unfold SFeqb. split.
  - intros H. destruct (Prim2SF x) eqn:E; try reflexivity;
      rewrite SFcompare_refl in H by discriminate; discriminate.
  - intros ->. reflexivity.
Qed.

Lemma not_nan_spec x : is_nan x = false <-> Prim2SF x <> S754_nan.
Proof.
  rewrite <- is_nan_spec. destruct (is_nan x); split; congruence.
Qed.

Lemma leb_compare x y :
  (x <=? y) = true <->
  exists c, SFcompare (Prim2SF x) (Prim2SF y) = Some c /\ below c = true.
Proof.
  rewrite leb_spec. unfold SFleb.
  destruct (SFcompare (Prim2SF x) (Prim2SF y)) as [[] | ]; cbn; split;
    intros H; eauto; try discriminate;
    destruct H as (c & H & Hc); inversion H; subst; discriminate.
Qed.

Lemma leb_not_nan x y :
  (x <=? y) = true -> is_nan x = false /\ is_nan y = false.
Proof.
  rewrite leb_compare, !not_nan_spec. intros (c & H & _).
  split; intros E; assert (N : SFcompare (Prim2SF x) (Prim2SF y) = None)
    by (apply SFcompare_none; auto); congruence.
Qed.



(** On present cells [<] is the negation of the converse [<=]. *)
Lemma ltb_leb x y :
  is_nan x = false -> is_nan y = false -> (y <? x) = negb (x <=? y).
Proof.
  rewrite !not_nan_spec, ltb_spec, leb_spec. unfold SFltb, SFleb.
  intros Hx Hy.
  destruct (SFcompare (Prim2SF x) (Prim2SF y)) as [c | ] eqn:E.
  - rewrite (SFcompare_antisym _ _ _ E). destruct c; reflexivity.
  - apply SFcompare_none in E. tauto.
Qed.

Lemma ltb_nan_l x y : is_nan x = true -> (x <? y) = false.
Proof.
  rewrite is_nan_spec, ltb_spec. intros ->. reflexivity.
Qed.

Lemma ltb_nan_r x y : is_nan y = true -> (x <? y) = false.
Proof.
  rewrite is_nan_spec, ltb_spec. intros ->. unfold SFltb.
  destruct (Prim2SF x) as [[] | [] | | [] m e]; reflexivity.
Qed.

Lemma leb_ltb x y : (x <=? y) = true -> (y <? x) = false.
Proof.
  intros H. destruct (leb_not_nan _ _ H) as [Hx Hy].
  rewrite ltb_leb, H by assumption. reflexivity.
Qed.

Lemma is_zero_spec x :
  F64.is_zero x = true <-> exists s, Prim2SF x = S754_zero s.
Proof.
  unfold F64.is_zero. rewrite eqb_spec.
  change (Prim2SF 0) with (S754_zero false). unfold SFeqb.
  destruct (Prim2SF x) as [s | [] | | [] m e]; cbn; split; intros H; eauto;
    try discriminate; destruct H as [s' H]; discriminate.
Qed.

(** Division by a zero never fails: the quotient is NaN when the dividend
    is a zero or NaN, and an infinity otherwise. *)
Lemma div_by_zero x y :
  F64.is_zero y = true ->
  (x / y = nan \/ x / y = infinity \/ x / y = neg_infinity) /\
  F64.isna (x / y) = (F64.isna x || F64.is_zero x)%bool.
Proof.
  intros Hy. apply is_zero_spec in Hy. destruct Hy as [s Hy].
  assert (D := div_spec x y). rewrite Hy in D.
  assert (Q : forall q, Prim2SF (x / y) = q -> x / y = SF2Prim q)
    by (intros q <-; symmetry; apply SF2Prim_Prim2SF).
  destruct (F64.isna x) eqn:Nx; unfold F64.isna in *.
  - assert (E := Nx). apply is_nan_spec in E. rewrite E in D. cbn in D.
    split; [left; apply (Q _ D) | ].
    apply is_nan_spec. assumption.
  - destruct (F64.is_zero x) eqn:Zx.
    + assert (E := Zx). apply is_zero_spec in E. destruct E as [sx E].
      rewrite E in D. cbn in D.
      split; [left; apply (Q _ D) | ].
      apply is_nan_spec. assumption.
    + assert (Fx : forall sx, Prim2SF x <> S754_zero sx).
      { intros sx E.
        assert (F64.is_zero x = true) by (apply is_zero_spec; eauto).
        congruence. }
      apply not_nan_spec in Nx.
      destruct (Prim2SF x) as [sx | sx | | sx m e] eqn:E;
        try congruence; try (exfalso; eapply Fx; reflexivity);
        cbn in D.
      * split; [ | apply not_nan_spec; rewrite D; discriminate].
        apply Q in D. destruct (xorb sx s); cbn in D; auto.
      * split; [ | apply not_nan_spec; rewrite D; discriminate].
        apply Q in D. destruct (xorb sx s); cbn in D; auto.
Qed.

End FloatFacts.

(** ** Integers in binary64

    Sums and differences of integers are exact in binary64 as long as they
    stay below 2^53. *)

Section ExactIntegers.

Import Binary64.

Local Open Scope Z_scope.

Lemma shl_add p a b : shl (shl p a) b = shl p (a + b).
Proof.
  unfold shl. rewrite (Nat.add_comm a b). symmetry. apply Nat.iter_add.
Qed.

Lemma digits_shl p n :
  Zpos (digits2_pos (shl p n)) = Zpos (digits2_pos p) + Z.of_nat n.
Proof.
  induction n as [|n IH].
  - simpl. lia.
  - change (shl p (S n)) with (xO (shl p n)).
    cbn [digits2_pos]. rewrite Pos2Z.inj_succ, IH. lia.
Qed.

Lemma Zpos_shl p n : Zpos (shl p n) = Zpos p * 2 ^ Z.of_nat n.
Proof.
  induction n as [|n IH].
  - simpl. lia.
  - change (shl p (S n)) with (xO (shl p n)).
    rewrite Pos2Z.inj_xO, IH, Nat2Z.inj_succ, Z.pow_succ_r by lia. lia.
Qed.

Lemma pos_iter_shl p q : Pos.iter xO p q = shl p (Pos.to_nat q).
Proof. apply Pos2Nat.inj_iter. Qed.

Lemma iter_pos_nat {A} (f : A -> A) n x :
  iter_pos f n x = Nat.iter (Pos.to_nat n) f x.
Proof.
  revert x. induction n as [n IH|n IH|]; intros x; cbn [iter_pos].
  - rewrite !IH, Pos2Nat.inj_xI.
    replace (S (2 * Pos.to_nat n))%nat
      with (Pos.to_nat n + (Pos.to_nat n + 1))%nat by lia.
    rewrite !Nat.iter_add. reflexivity.
  - rewrite !IH, Pos2Nat.inj_xO.
    replace (2 * Pos.to_nat n)%nat
      with (Pos.to_nat n + Pos.to_nat n)%nat by lia.
    rewrite Nat.iter_add. reflexivity.
  - reflexivity.
Qed.

(** Shifting right the bits shifted in gives the mantissa back, with
    nothing lost. *)
Lemma shr_shl n m :
  Nat.iter n shr_1 (Build_shr_record (Zpos (shl m n)) false false)
  = Build_shr_record (Zpos m) false false.
Proof.
  induction n as [|n IH].
  - reflexivity.
  - rewrite Nat.iter_succ_r. change (shl m (S n)) with (xO (shl m n)).
    cbn [shr_1 orb]. exact IH.
Qed.

Lemma fexp_53 e : -1074 <= e -> fexp prec emax (e + 53) = e.
Proof. intros H. unfold fexp, SpecFloat.emin, prec, emax. lia. Qed.

(** Rounding a full mantissa followed by zeros is exact. *)
Lemma binary_round_aux_shl s m e n :
  Zpos (digits2_pos m) = 53 -> -1074 <= e <= 971 ->
  binary_round_aux prec emax s (Zpos (shl m n)) (e - Z.of_nat n) loc_Exact
  = S754_finite s m e.
Proof.
  intros D E.
  assert (S1 : shr_fexp prec emax (Zpos (shl m n)) (e - Z.of_nat n) loc_Exact
               = (Build_shr_record (Zpos m) false false, e)).
  { unfold shr_fexp. cbn [Zdigits2 shr_record_of_loc].
    rewrite digits_shl, D.
    replace (53 + Z.of_nat n + (e - Z.of_nat n)) with (e + 53) by lia.
    rewrite fexp_53 by lia.
    replace (e - (e - Z.of_nat n)) with (Z.of_nat n) by lia.
    unfold shr. destruct (Z.of_nat n) as [|q|q] eqn:Q.
    - assert (n = 0%nat) by lia. subst n. cbn [shl Nat.iter]. f_equal. lia.
    - rewrite iter_pos_nat.
      assert (Pos.to_nat q = n) by lia. subst n.
      rewrite shr_shl. f_equal. lia.
    - lia. }
  assert (S2 : shr_fexp prec emax (Zpos m) e loc_Exact
               = (Build_shr_record (Zpos m) false false, e)).
  { unfold shr_fexp. cbn [Zdigits2 shr_record_of_loc]. rewrite D.
    replace (53 + e) with (e + 53) by lia. rewrite fexp_53 by lia.
    rewrite Z.sub_diag. reflexivity. }
  unfold binary_round_aux. rewrite S1.
  cbn [shr_m loc_of_shr_record round_nearest_even]. rewrite S2.
  cbn [shr_m].
  replace (e <=? emax - prec) with true; [reflexivity|].
  symmetry. apply Z.leb_le. unfold emax, prec. lia.
Qed.

(** Rounding depends on the value, not on how it is written: an integer
    of at most 53 bits followed by [k] zeros, at exponent [-k], rounds to
    its canonical form. *)
Lemma binary_round_shl s p k :
  Zpos (digits2_pos p) <= 53 ->
  binary_round prec emax s (shl p k) (- Z.of_nat k)
  = S754_finite s (shl p (Z.to_nat (53 - Zpos (digits2_pos p))))
      (Zpos (digits2_pos p) - 53).
Proof.
  intros D. set (d := Zpos (digits2_pos p)) in *.
  assert (D1 : 1 <= d) by (unfold d; lia).
  unfold binary_round. rewrite digits_shl. fold d.
  replace (d + Z.of_nat k + - Z.of_nat k) with (d - 53 + 53) by lia.
  rewrite fexp_53 by lia.
  unfold shl_align.
  destruct (d - 53 - - Z.of_nat k) as [|q|q] eqn:Q.
  - replace (Z.to_nat (53 - d)) with k by lia.
    replace (- Z.of_nat k) with (d - 53 - Z.of_nat 0) by lia.
    apply (binary_round_aux_shl s (shl p k) (d - 53) 0).
    + rewrite digits_shl. fold d. lia.
    + lia.
  - replace k with (Z.to_nat (53 - d) + Pos.to_nat q)%nat at 1 by lia.
    rewrite <- shl_add.
    replace (- Z.of_nat k) with (d - 53 - Z.of_nat (Pos.to_nat q)) by lia.
    apply binary_round_aux_shl.
    + rewrite digits_shl. fold d. lia.
    + lia.
  - rewrite pos_iter_shl, shl_add.
    replace (k + Pos.to_nat q)%nat with (Z.to_nat (53 - d)) by lia.
    replace (d - 53) with (d - 53 - Z.of_nat 0) at 1 by lia.
    apply (binary_round_aux_shl s (shl p (Z.to_nat (53 - d))) (d - 53) 0).
    + rewrite digits_shl. fold d. lia.
    + lia.
Qed.

Lemma digits_bound p n :
  0 <= n -> Zpos p < 2 ^ n -> Zpos (digits2_pos p) <= n.
Proof.
  revert n. induction p as [p IH|p IH|]; intros n N H.
  - assert (n <> 0) by (intros ->; simpl in H; lia).
    replace n with (Z.succ (n - 1)) in H by lia.
    rewrite Z.pow_succ_r in H by lia.
    cbn [digits2_pos]. rewrite Pos2Z.inj_succ.
    specialize (IH (n - 1)). lia.
  - assert (n <> 0) by (intros ->; simpl in H; lia).
    replace n with (Z.succ (n - 1)) in H by lia.
    rewrite Z.pow_succ_r in H by lia.
    cbn [digits2_pos]. rewrite Pos2Z.inj_succ.
    specialize (IH (n - 1)). lia.
  - assert (n <> 0) by (intros ->; simpl in H; lia). simpl. lia.
Qed.

Lemma Z2SF_pos p : Zpos p < 2 ^ 53 -> Z2SF (Zpos p) = canonical false p.
Proof.
  intros H. apply digits_bound in H; [|lia].
  apply (binary_round_shl false p 0 H).
Qed.

Lemma Z2SF_neg p : Zpos p < 2 ^ 53 -> Z2SF (Zneg p) = canonical true p.
Proof.
  intros H. apply digits_bound in H; [|lia].
  apply (binary_round_shl true p 0 H).
Qed.

Lemma normalize_shl z k :
  Z.abs z < 2 ^ 53 ->
  binary_normalize prec emax (z * 2 ^ Z.of_nat k) (- Z.of_nat k) false
  = Z2SF z.
Proof.
  intros H. destruct z as [|p|p].
  - reflexivity.
  - rewrite <- Zpos_shl. cbn [binary_normalize].
    rewrite Z2SF_pos by exact H.
    apply binary_round_shl. apply digits_bound; [lia|exact H].
  - change (Zneg p) with (- Zpos p).
    rewrite Z.mul_opp_l, <- Zpos_shl. cbn [Z.opp binary_normalize].
    rewrite Z2SF_neg by exact H.
    apply binary_round_shl. apply digits_bound; [lia|exact H].
Qed.

Lemma valid_canonical s p :
  Zpos p < 2 ^ 53 -> valid_binary (canonical s p) = true.
Proof.
  intros H. apply digits_bound in H; [|lia].
  unfold canonical, valid_binary, SpecFloat.valid_binary, bounded,
    canonical_mantissa.
  rewrite digits_shl.
  set (d := Zpos (digits2_pos p)) in *.
  assert (1 <= d) by (unfold d; lia).
  replace (d + Z.of_nat (Z.to_nat (53 - d)) + (d - 53)) with (d - 53 + 53)
    by lia.
  rewrite fexp_53 by lia. rewrite Z.eqb_refl. cbn [andb].
  apply Z.leb_le. unfold emax, prec. lia.
Qed.

Lemma valid_Z2SF z : Z.abs z < 2 ^ 53 -> valid_binary (Z2SF z) = true.
Proof.
  intros H. destruct z as [|p|p].
  - reflexivity.
  - rewrite Z2SF_pos by exact H. apply valid_canonical, H.
  - rewrite Z2SF_neg by exact H. apply valid_canonical, H.
Qed.

Lemma Z2SF_signed s p : Zpos p < 2 ^ 53 -> Z2SF (signed s p) = canonical s p.
Proof. destruct s; [apply Z2SF_neg|apply Z2SF_pos]. Qed.

Lemma shl_align_fst m e e' :
  e' <= e -> fst (shl_align m e e') = shl m (Z.to_nat (e - e')).
Proof.
  intros H. unfold shl_align. destruct (e' - e) as [|q|q] eqn:Q.
  - replace (e - e') with 0 by lia. reflexivity.
  - lia.
  - cbn [fst]. rewrite pos_iter_shl. f_equal. lia.
Qed.

Lemma cond_Zopp_shl s p n :
  cond_Zopp s (Zpos (shl p n)) = signed s p * 2 ^ Z.of_nat n.
Proof. rewrite Zpos_shl. unfold signed. destruct s; cbn [cond_Zopp]; lia. Qed.

Lemma aligned s p ez :
  Zpos p < 2 ^ 53 -> ez <= Zpos (digits2_pos p) - 53 ->
  cond_Zopp s (Zpos (fst (shl_align
     (shl p (Z.to_nat (53 - Zpos (digits2_pos p)))) (Zpos (digits2_pos p) - 53) ez)))
  = signed s p * 2 ^ Z.of_nat (Z.to_nat (- ez)).
Proof.
  intros H E. pose proof (digits_bound p 53 ltac:(lia) H) as D.
  rewrite shl_align_fst by exact E. rewrite shl_add, cond_Zopp_shl.
  do 2 f_equal. lia.
Qed.

Lemma SFadd_canonical sa pa sb pb :
  Zpos pa < 2 ^ 53 -> Zpos pb < 2 ^ 53 ->
  Z.abs (signed sa pa + signed sb pb) < 2 ^ 53 ->
  SFadd prec emax (canonical sa pa) (canonical sb pb)
  = Z2SF (signed sa pa + signed sb pb).
Proof.
  intros A B S. unfold canonical at 1 2. cbn [SFadd].
  pose proof (digits_bound pa 53 ltac:(lia) A) as Da.
  pose proof (digits_bound pb 53 ltac:(lia) B) as Db.
  set (ez := Z.min _ _).
  rewrite !aligned by (try assumption; unfold ez; lia).
  rewrite <- Z.mul_add_distr_r.
  rewrite <- (normalize_shl _ (Z.to_nat (- ez)) S).
  f_equal. unfold ez. lia.
Qed.

Lemma SFsub_canonical sa pa sb pb :
  Zpos pa < 2 ^ 53 -> Zpos pb < 2 ^ 53 ->
  Z.abs (signed sa pa - signed sb pb) < 2 ^ 53 ->
  SFsub prec emax (canonical sa pa) (canonical sb pb)
  = Z2SF (signed sa pa - signed sb pb).
Proof.
  intros A B S. unfold canonical at 1 2. cbn [SFsub].
  pose proof (digits_bound pa 53 ltac:(lia) A) as Da.
  pose proof (digits_bound pb 53 ltac:(lia) B) as Db.
  set (ez := Z.min _ _).
  rewrite !aligned by (try assumption; unfold ez; lia).
  rewrite <- Z.mul_sub_distr_r.
  rewrite <- (normalize_shl _ (Z.to_nat (- ez)) S).
  f_equal. unfold ez. lia.
Qed.

Lemma Z_signed z : z <> 0 -> exists s p, z = signed s p /\ Z.abs z = Zpos p.
Proof.
  destruct z as [|p|p]; intros H.
  - contradiction.
  - exists false, p. split; reflexivity.
  - exists true, p. split; reflexivity.
Qed.

(** The sum of two integers is exact when it stays below 2^53. *)
Lemma SFadd_exact a b :
  Z.abs a < 2 ^ 53 -> Z.abs b < 2 ^ 53 -> Z.abs (a + b) < 2 ^ 53 ->
  SFadd prec emax (Z2SF a) (Z2SF b) = Z2SF (a + b).
Proof.
  intros A B S.
  destruct (Z.eq_dec a 0) as [->|Na].
  - rewrite Z.add_0_l. destruct b as [|p|p]; try reflexivity.
    + rewrite Z2SF_pos by exact B. reflexivity.
    + rewrite Z2SF_neg by exact B. reflexivity.
  - destruct (Z.eq_dec b 0) as [->|Nb].
    + rewrite Z.add_0_r. destruct a as [|p|p]; try reflexivity.
      * rewrite Z2SF_pos by exact A. reflexivity.
      * rewrite Z2SF_neg by exact A. reflexivity.
    + destruct (Z_signed a Na) as (sa & pa & -> & Ea).
      destruct (Z_signed b Nb) as (sb & pb & -> & Eb).
      rewrite Ea in A. rewrite Eb in B.
      rewrite !Z2SF_signed by assumption.
      apply SFadd_canonical; assumption.
Qed.

(** So is their difference. *)
Lemma SFsub_exact a b :
  Z.abs a < 2 ^ 53 -> Z.abs b < 2 ^ 53 -> Z.abs (a - b) < 2 ^ 53 ->
  SFsub prec emax (Z2SF a) (Z2SF b) = Z2SF (a - b).
Proof.
  intros A B S.
  destruct (Z.eq_dec b 0) as [->|Nb].
  - rewrite Z.sub_0_r. destruct a as [|p|p]; try reflexivity.
    + rewrite Z2SF_pos by exact A. reflexivity.
    + rewrite Z2SF_neg by exact A. reflexivity.
  - destruct (Z.eq_dec a 0) as [->|Na].
    + rewrite Z.sub_0_l. destruct b as [|p|p]; try reflexivity; cbn [Z.opp].
      * rewrite Z2SF_pos, (Z2SF_neg p) by exact B. reflexivity.
      * rewrite Z2SF_neg, (Z2SF_pos p) by exact B. reflexivity.
    + destruct (Z_signed a Na) as (sa & pa & -> & Ea).
      destruct (Z_signed b Nb) as (sb & pb & -> & Eb).
      rewrite Ea in A. rewrite Eb in B.
      rewrite !Z2SF_signed by assumption.
      apply SFsub_canonical; assumption.
Qed.

Lemma Prim2SF_of_int64 z :
  Z.abs z < 2 ^ 53 -> Prim2SF (F64.of_int64 z) = Z2SF z.
Proof. intros H. apply Prim2SF_SF2Prim, valid_Z2SF, H. Qed.

Lemma add_of_int64 a b :
  Z.abs a < 2 ^ 53 -> Z.abs b < 2 ^ 53 -> Z.abs (a + b) < 2 ^ 53 ->
  (F64.of_int64 a + F64.of_int64 b)%float = F64.of_int64 (a + b).
Proof.
  intros A B S. apply Prim2SF_inj.
  rewrite add_spec, !Prim2SF_of_int64 by assumption.
  apply SFadd_exact; assumption.
Qed.

Lemma sub_of_int64 a b :
  Z.abs a < 2 ^ 53 -> Z.abs b < 2 ^ 53 -> Z.abs (a - b) < 2 ^ 53 ->
  (F64.of_int64 a - F64.of_int64 b)%float = F64.of_int64 (a - b).
Proof.
  intros A B S. apply Prim2SF_inj.
  rewrite sub_spec, !Prim2SF_of_int64 by assumption.
  apply SFsub_exact; assumption.
Qed.

Lemma of_int64_present z :
  Z.abs z < 2 ^ 53 -> F64.isna (F64.of_int64 z) = false.
Proof.
  intros H. unfold F64.isna. apply not_nan_spec.
  rewrite Prim2SF_of_int64 by exact H.
  destruct z as [ | p | p].
  - discriminate.
  - rewrite Z2SF_pos by exact H. discriminate.
  - rewrite Z2SF_neg by exact H. discriminate.
Qed.

End ExactIntegers.

(** ** Lists *)

Lemma nth_error_zip_with {A B C : Type} (f : A -> B -> C) {l m i x y} :
  nth_error l i = Some x -> nth_error m i = Some y ->
  nth_error (zip_with f l m) i = Some (f x y).
Proof.
  revert m i. induction l as [ | a l IH]; intros [ | b m] [ | i]; simpl;
    try discriminate.
  - intros H1 H2. inversion H1; inversion H2; reflexivity.
  - intros H1 H2. apply IH; assumption.
Qed.

Lemma length_zip_with {A B C : Type} (f : A -> B -> C) l m :
  List.length (zip_with f l m) = Nat.min (List.length l) (List.length m).
Proof.
  revert m. induction l as [ | a l IH]; intros [ | b m]; simpl; auto.
Qed.

(** ** Frames *)

Lemma getitem_setitem_same df c s : getitem (setitem df c s) c = Ok s.
Proof.
  induction df as [ | [c' s'] df IH]; simpl.
  - rewrite String.eqb_refl. reflexivity.
  - destruct (String.eqb c' c) eqn:E; simpl; rewrite E; auto.
Qed.

Lemma getitem_setitem_other df c c' s :
  c' <> c -> getitem (setitem df c s) c' = getitem df c'.
Proof.
  intros N. induction df as [ | [d s'] df IH]; simpl.
  - destruct (String.eqb_spec c c'); [congruence | reflexivity].
  - destruct (String.eqb_spec d c) as [-> | Hd]; simpl.
    + destruct (String.eqb_spec c c'); [congruence | reflexivity].
    + rewrite IH. reflexivity.
Qed.

Lemma setitem_twice df c s s' :
  setitem (setitem df c s) c s' = setitem df c s'.
Proof.
  induction df as [ | [d s0] df IH]; simpl.
  - rewrite String.eqb_refl. reflexivity.
  - destruct (String.eqb d c) eqn:E; simpl; rewrite E; congruence.
Qed.

Lemma setitem_fresh df c s :
  ~ In c (columns df) -> setitem df c s = df ++ [(c, s)].
Proof.
  induction df as [ | [d s0] df IH]; simpl; intros N; [reflexivity | ].
  destruct (String.eqb_spec d c) as [-> | Hd]; [tauto | ].
  rewrite IH by tauto. reflexivity.
Qed.

Lemma getitem_In df c s : getitem df c = Ok s -> In (c, s) df.
Proof.
  induction df as [ | [d s0] df IH]; simpl; [discriminate | ].
  destruct (String.eqb_spec d c) as [-> | Hd]; intros H.
  - inversion H. auto.
  - auto.
Qed.

Lemma nrows_getitem df n c s : nrows df n -> getitem df c = Ok s -> size s = n.
Proof.
  intros W H. apply getitem_In in H.
  unfold nrows in W. rewrite Forall_forall in W. apply (W _ H).
Qed.

Lemma nrows_setitem df n c s :
  nrows df n -> size s = n -> nrows (setitem df c s) n.
Proof.
  unfold nrows. intros W Hs.
  induction df as [ | [d s0] df IH]; simpl.
  - constructor; auto.
  - inversion W; subst. destruct (String.eqb d c); constructor; auto.
Qed.

Lemma getitem_missing df c :
  ~ In c (columns df) -> getitem df c = Raise (KeyError c).
Proof.
  induction df as [ | [d s] df IH]; simpl; intros N; [reflexivity | ].
  destruct (String.eqb_spec d c) as [-> | Hd]; [tauto | ].
  apply IH. tauto.
Qed.

Lemma getitem_present df c :
  In c (columns df) -> exists s, getitem df c = Ok s.
Proof.
  induction df as [ | [d s] df IH]; simpl; intros I; [destruct I | ].
  destruct (String.eqb_spec d c) as [-> | Hd]; [eauto | ].
  apply IH. destruct I; [contradiction | assumption].
Qed.

Lemma getitem_columns df c s : getitem df c = Ok s -> In c (columns df).
Proof.
  intros H. apply getitem_In in H.
  apply (in_map fst) in H. exact H.
Qed.

Lemma getitem_raise df c e : getitem df c = Raise e -> e = KeyError c.
Proof.
  induction df as [ | [d s] df IH]; simpl; intros H.
  - inversion H. reflexivity.
  - destruct (String.eqb d c); [discriminate | auto].
Qed.

Lemma has_column_spec df c : has_column df c = true <-> In c (columns df).
Proof.
  unfold has_column. rewrite existsb_exists. split.
  - intros (d & I & E). apply String.eqb_eq in E. subst. exact I.
  - intros I. exists c. split; [exact I | apply String.eqb_refl].
Qed.

Lemma columns_setitem_present df c s :
  In c (columns df) -> columns (setitem df c s) = columns df.
Proof.
  induction df as [ | [d s0] df IH]; simpl; intros I; [destruct I | ].
  destruct (String.eqb_spec d c) as [-> | Hd]; simpl; [reflexivity | ].
  f_equal. apply IH. destruct I; [contradiction | assumption].
Qed.

(** ** Selections of columns *)

Lemma getitem_reindex df cs c :
  getitem (reindex df cs) c
  = if existsb (String.eqb c) cs then getitem df c else Raise (KeyError c).
Proof.
  induction cs as [ | d cs IH]; simpl; [reflexivity | ].
  destruct (getitem df d) as [s | e] eqn:G; simpl.
  - rewrite (String.eqb_sym c d).
    destruct (String.eqb_spec d c) as [-> | N]; simpl; [auto | exact IH].
  - rewrite IH. destruct (String.eqb_spec c d) as [-> | N]; simpl;
      [ | reflexivity].
    rewrite G, (getitem_raise _ _ _ G).
    destruct (existsb (String.eqb d) cs); reflexivity.
Qed.

Lemma select_columns_ok df cs r :
  select_columns df cs = Ok r ->
  r = reindex df cs /\ forall c, In c cs -> In c (columns df).
Proof.
  unfold select_columns.
  destruct (filter (fun c => negb (has_column df c)) cs) as [ | d l] eqn:F;
    intros H; inversion H. split; [reflexivity | ].
  intros c I. destruct (has_column df c) eqn:E; [apply has_column_spec, E | ].
  assert (J : In c (filter (fun c => negb (has_column df c)) cs))
    by (apply filter_In; rewrite E; auto).
  rewrite F in J. destruct J.
Qed.

Lemma select_columns_runs df cs :
  (forall c, In c cs -> exists s, getitem df c = Ok s) ->
  select_columns df cs = Ok (reindex df cs).
Proof.
  intros H. unfold select_columns.
  destruct (filter (fun c => negb (has_column df c)) cs) as [ | d l] eqn:F;
    [reflexivity | ].
  assert (J : In d (filter (fun c => negb (has_column df c)) cs))
    by (rewrite F; left; reflexivity).
  apply filter_In in J. destruct J as [I E].
  destruct (H d I) as [s G]. apply getitem_columns, has_column_spec in G.
  rewrite G in E. discriminate.
Qed.

Lemma existsb_eqb c cs : existsb (String.eqb c) cs = true <-> In c cs.
Proof.
  rewrite existsb_exists. split.
  - intros (d & I & E). apply String.eqb_eq in E. subst. exact I.
  - intros I. exists c. split; [exact I | apply String.eqb_refl].
Qed.

Lemma getitem_select_columns df cs r c s :
  select_columns df cs = Ok r -> getitem r c = Ok s -> getitem df c = Ok s.
Proof.
  intros H G. apply select_columns_ok in H as [-> _].
  rewrite getitem_reindex in G.
  destruct (existsb (String.eqb c) cs); [exact G | discriminate].
Qed.

Lemma getitem_selected df cs r c :
  select_columns df cs = Ok r -> In c cs -> getitem r c = getitem df c.
Proof.
  intros H I. apply select_columns_ok in H as [-> _].
  rewrite getitem_reindex. apply existsb_eqb in I. rewrite I. reflexivity.
Qed.

Lemma columns_reindex df cs :
  (forall c, In c cs -> In c (columns df)) -> columns (reindex df cs) = cs.
Proof.
  induction cs as [ | c cs IH]; simpl; intros H; [reflexivity | ].
  destruct (getitem_present df c) as [s G]; [apply H; auto | ].
  rewrite G. simpl. f_equal. apply IH. intros d I. apply H. auto.
Qed.

Lemma columns_select_columns df cs r :
  select_columns df cs = Ok r -> columns r = cs.
Proof.
  intros H. apply select_columns_ok in H as [-> I].
  apply columns_reindex, I.
Qed.

(** ** Clipping *)

Lemma wrap_in_range z : I64.in_range z -> I64.wrap z = z.
Proof.
  unfold I64.in_range, I64.min_int, I64.max_int, I64.wrap. intros H.
  rewrite Z.mod_small; lia.
Qed.

Lemma clip_lower_float_not_negative d :
  (clip_lower_float 0 d <? 0)%float = false.
Proof.
  unfold clip_lower_float. destruct (F64.isna d) eqn:N; simpl.
  - apply ltb_nan_l. exact N.
  - destruct (0 <=? d)%float eqn:L.
    + apply leb_ltb. exact L.
    + reflexivity.
Qed.

Lemma clip_lower_float_present d :
  F64.isna d = false -> clip_lower_float 0 d = Spec.clipped_float d.
Proof.
  unfold clip_lower_float, Spec.clipped_float, F64.isna. intros N.
  rewrite N. simpl.
  rewrite (ltb_leb 0 d) by (assumption || reflexivity).
  destruct (0 <=? d)%float; reflexivity.
Qed.

Lemma clipped_float_present d :
  F64.isna d = false -> F64.isna (Spec.clipped_float d) = false.
Proof.
  unfold Spec.clipped_float. intros N. destruct (d <? 0)%float; auto.
Qed.

Lemma negative_float_cell f :
  (f <? 0)%float = false -> Spec.negative (float_cell f) = false.
Proof.
  unfold float_cell. destruct (F64.isna f); auto.
Qed.

Lemma extra_steps_runs df made planned diff clipped :
  getitem df "how_many_steps_agents_made" = Ok made ->
  getitem df "total_agents_path_length" = Ok planned ->
  sub made planned = Ok diff ->
  clip_lower diff 0 = Ok clipped ->
  Trabalho11.extra_steps df = Ok (setitem df "extra_steps" clipped).
Proof.
  intros H1 H2 H3 H4. unfold Trabalho11.extra_steps.
  rewrite H1, H2. simpl. rewrite H3. simpl.
  rewrite getitem_setitem_same. simpl. rewrite H4. simpl.
  rewrite setitem_twice. reflexivity.
Qed.

Lemma sub_numeric made planned :
  Spec.is_numeric made = true -> Spec.is_numeric planned = true ->
  exists diff clipped,
    sub made planned = Ok diff /\ clip_lower diff 0 = Ok clipped /\
    (forall i r, iat clipped i = Some r -> Spec.negative r = false) /\
    (forall a b i x y,
        made = Int64 a -> planned = Int64 b ->
        nth_error a i = Some x -> nth_error b i = Some y ->
        I64.in_range (x - y) ->
        iat clipped i = Some (SInt (Spec.clipped_difference x y))) /\
    (forall a b i x y,
        Spec.both_int64 made planned = false ->
        as_float made = Ok a -> as_float planned = Ok b ->
        nth_error a i = Some x -> nth_error b i = Some y ->
        F64.isna (x - y) = false ->
        iat clipped i = Some (SFloat (Spec.clipped_float (x - y)))).
Proof.
  assert (F : forall a b,
    (forall i r, iat (Float64 (map (clip_lower_float 0) (zip_with PrimFloat.sub a b))) i = Some r ->
                 Spec.negative r = false) /\
    (forall i x y, nth_error a i = Some x -> nth_error b i = Some y ->
        F64.isna (x - y) = false ->
        iat (Float64 (map (clip_lower_float 0) (zip_with PrimFloat.sub a b))) i
        = Some (SFloat (Spec.clipped_float (x - y))))).
  { intros a b. unfold iat. simpl. split.
    - intros i r H. rewrite !nth_error_map in H.
      destruct (nth_error (zip_with PrimFloat.sub a b) i) as [d | ];
        simpl in H; inversion H; subst.
      apply negative_float_cell, clip_lower_float_not_negative.
    - intros i x y Hx Hy N. rewrite !nth_error_map.
      rewrite (nth_error_zip_with PrimFloat.sub Hx Hy). simpl.
      rewrite clip_lower_float_present by assumption.
      unfold float_cell. rewrite clipped_float_present by assumption.
      reflexivity. }
  intros Hm Hp.
  destruct made as [a | a | a | a], planned as [b | b | b | b];
    try discriminate; clear Hm Hp; simpl.
  - eexists _, _. split; [reflexivity | ]. split; [reflexivity | ].
    unfold iat. simpl. split; [ | split].
    + intros i r H. rewrite !nth_error_map in H.
      destruct (nth_error (zip_with I64.sub a b) i) as [d | ];
        simpl in H; inversion H; subst. simpl. apply Z.ltb_ge. lia.
    + intros a' b' i x y Ea Eb Hx Hy R. inversion Ea; inversion Eb; subst.
      rewrite !nth_error_map.
      rewrite (nth_error_zip_with I64.sub Hx Hy). simpl.
      unfold I64.sub. rewrite wrap_in_range by assumption. reflexivity.
    + discriminate.
  - eexists _, _. split; [reflexivity | ]. split; [reflexivity | ].
    change (F64.of_int64 0) with 0%float.
    destruct (F (map F64.of_int64 a) b) as [F1 F2].
    split; [exact F1 | ]. split; [discriminate | ].
    intros a' b' i x y _ Ea Eb. inversion Ea; inversion Eb; subst. apply F2.
  - eexists _, _. split; [reflexivity | ]. split; [reflexivity | ].
    change (F64.of_int64 0) with 0%float.
    destruct (F a (map F64.of_int64 b)) as [F1 F2].
    split; [exact F1 | ]. split; [discriminate | ].
    intros a' b' i x y _ Ea Eb. inversion Ea; inversion Eb; subst. apply F2.
  - eexists _, _. split; [reflexivity | ]. split; [reflexivity | ].
    change (F64.of_int64 0) with 0%float.
    destruct (F a b) as [F1 F2].
    split; [exact F1 | ]. split; [discriminate | ].
    intros a' b' i x y _ Ea Eb. inversion Ea; inversion Eb; subst. apply F2.
Qed.

(** C1 (amended).  On numeric columns lines 14 and 15 always run, and the
    derived cell is never negative.  It is [max(0, a - b)] on int64 cells
    whose difference fits in int64 (so for all non-negative counts), and
    [max(0, d)] of the binary64 difference [d] when a column is float64 and
    [d] is not NaN. *)
Theorem extra_steps_clipped_difference df made planned :
  getitem df "how_many_steps_agents_made" = Ok made ->
  getitem df "total_agents_path_length" = Ok planned ->
  Spec.is_numeric made = true -> Spec.is_numeric planned = true ->
  exists df' e,
    Trabalho11.extra_steps df = Ok df' /\
    getitem df' "extra_steps" = Ok e /\
    (forall i r, iat e i = Some r -> Spec.negative r = false) /\
    (forall a b i x y,
        made = Int64 a -> planned = Int64 b ->
        nth_error a i = Some x -> nth_error b i = Some y ->
        I64.in_range (x - y) ->
        iat e i = Some (SInt (Spec.clipped_difference x y))) /\
    (forall a b i x y,
        Spec.both_int64 made planned = false ->
        as_float made = Ok a -> as_float planned = Ok b ->
        nth_error a i = Some x -> nth_error b i = Some y ->
        F64.isna (x - y) = false ->
        iat e i = Some (SFloat (Spec.clipped_float (x - y)))).
Proof.
  intros H1 H2 Nm Np.
  destruct (sub_numeric made planned Nm Np) as (diff & clipped & S & C & P).
  exists (setitem df "extra_steps" clipped), clipped.
  split; [eapply extra_steps_runs; eassumption | ].
  split; [apply getitem_setitem_same | exact P].
Qed.

(** The specification's two examples, [derive(3, 10) = 0] and
    [derive(10, 3) = 7], through the theorem. *)
Lemma extra_steps_clipped_difference_witness :
  exists df' e,
    Trabalho11.extra_steps Sample.steps = Ok df' /\
    getitem df' "extra_steps" = Ok e /\
    iat e 0 = Some (SInt 0) /\ iat e 1 = Some (SInt 7).
Proof.
  destruct (extra_steps_clipped_difference Sample.steps _ _
              eq_refl eq_refl eq_refl eq_refl)
    as (df' & e & R & G & _ & I & _).
  exists df', e. split; [exact R | ]. split; [exact G | ]. split.
  - apply (I _ _ 0%nat 3%Z 10%Z eq_refl eq_refl eq_refl eq_refl).
    unfold I64.in_range, I64.min_int, I64.max_int. lia.
  - apply (I _ _ 1%nat 10%Z 3%Z eq_refl eq_refl eq_refl eq_refl).
    unfold I64.in_range, I64.min_int, I64.max_int. lia.
Defined.

(** C1 as stated fails where the int64 difference wraps around: for
    [a = -2^63] and [b = 1] the derived cell is [2^63 - 1], not
    [max(0, a - b) = 0]. *)
Lemma extra_steps_wraps_around :
  Trabalho11.extra_steps Sample.steps
  = Ok (Sample.steps
          ++ [("extra_steps"%string, Int64 [0; 7; 9223372036854775807]%Z)]) /\
  Spec.clipped_difference (-9223372036854775808) 1 = 0%Z.
Proof.
  split; vm_compute; reflexivity.
Qed.

Lemma size_as_float s v : as_float s = Ok v -> List.length v = size s.
Proof.
  unfold size. destruct s as [x | x | x | x]; simpl; intros H.
  - inversion H. rewrite !length_map. reflexivity.
  - inversion H. rewrite length_map. reflexivity.
  - destruct (forallb is_missing x); inversion H.
    rewrite !length_map. reflexivity.
  - discriminate.
Qed.

(** Unless both columns are int64 the difference is taken in float64. *)
Lemma sub_as_float a b :
  Spec.both_int64 a b = false ->
  sub a b = x <- as_float a ;; y <- as_float b ;;
            Ok (Float64 (zip_with PrimFloat.sub x y)).
Proof. destruct a, b; intros H; try discriminate; reflexivity. Qed.

Lemma size_sub a b d n :
  sub a b = Ok d -> size a = n -> size b = n -> size d = n.
Proof.
  intros H Ha Hb. destruct (Spec.both_int64 a b) eqn:B.
  - destruct a as [x | x | x | x], b as [y | y | y | y]; try discriminate.
    simpl in H. inversion H as [D]. clear H D. unfold size in *.
    simpl in *. rewrite !length_map in Ha, Hb.
    rewrite length_map, length_zip_with. lia.
  - rewrite (sub_as_float _ _ B) in H.
    apply bind_ok in H as (x & X & H). apply bind_ok in H as (y & Y & H).
    inversion H as [D]. clear H D. apply size_as_float in X, Y.
    unfold size at 1. simpl. rewrite length_map, length_zip_with. lia.
Qed.

Lemma size_clip_lower d lo c : clip_lower d lo = Ok c -> size c = size d.
Proof.
  unfold size. destruct d as [v | v | v | v]; simpl; intros H.
  - inversion H. simpl. rewrite !length_map. reflexivity.
  - inversion H. simpl. rewrite !length_map. reflexivity.
  - destruct (forallb is_missing v); inversion H. reflexivity.
  - discriminate.
Qed.

(** C9 (amended).  The derivation leaves every other column as it was and
    keeps the number of rows.  When the table has no column named
    [extra_steps] the new column is appended after the existing ones; when
    it has one, that column is overwritten where it stands, and the table
    keeps its columns' names and order. *)
Theorem extra_steps_appends df df' :
  Trabalho11.extra_steps df = Ok df' ->
  (forall c, c <> "extra_steps"%string -> getitem df' c = getitem df c) /\
  (forall n, nrows df n -> nrows df' n) /\
  (~ In "extra_steps"%string (columns df) ->
   exists e, df' = df ++ [("extra_steps"%string, e)]) /\
  (In "extra_steps"%string (columns df) -> columns df' = columns df).
Proof.
  intros H. unfold Trabalho11.extra_steps in H.
  apply bind_ok in H as (made & Gm & H).
  apply bind_ok in H as (planned & Gp & H).
  apply bind_ok in H as (diff & D & H).
  apply bind_ok in H as (diff' & Gd & H).
  apply bind_ok in H as (clipped & C & H).
  rewrite getitem_setitem_same in Gd.
  inversion Gd; subst diff'. inversion H; subst df'. clear Gd H.
  rewrite setitem_twice.
  split; [ | split; [ | split]].
  - intros c N. apply getitem_setitem_other. exact N.
  - intros n W. apply nrows_setitem; [exact W | ].
    rewrite (size_clip_lower _ _ _ C).
    eapply size_sub; eauto using nrows_getitem.
  - intros N. exists clipped. apply setitem_fresh. exact N.
  - apply columns_setitem_present.
Qed.

Lemma extra_steps_appends_witness :
  exists e,
    Trabalho11.extra_steps Sample.steps
    = Ok (Sample.steps ++ [("extra_steps"%string, e)]).
Proof.
  assert (R : Trabalho11.extra_steps Sample.steps
              = Ok (Sample.steps
                      ++ [("extra_steps"%string,
                           Int64 [0; 7; 9223372036854775807]%Z)]))
    by (vm_compute; reflexivity).
  destruct (extra_steps_appends _ _ R) as (_ & _ & A & _).
  destruct A as [e A].
  - simpl. intros [H | [H | []]]; discriminate.
  - exists e. rewrite R, A. reflexivity.
Defined.

(** C9 as stated fails on a table that already has a column named
    [extra_steps]: nothing is appended, and that column, which stood first
    with the cells 100 and 100, holds the derived cells 0 and 7. *)
Lemma extra_steps_overwrites :
  Trabalho11.extra_steps Sample.derived
  = Ok [("extra_steps"%string, Int64 [0; 7]%Z);
        ("how_many_steps_agents_made"%string, Int64 [3; 10]%Z);
        ("total_agents_path_length"%string, Int64 [10; 3]%Z)] /\
  getitem Sample.derived "extra_steps" = Ok (Int64 [100; 100]%Z) /\
  List.length (columns Sample.derived) = 3.
Proof.
  repeat split; vm_compute; reflexivity.
Qed.

(** A table without rows goes through the derivation. *)
Example extra_steps_without_rows :
  Trabalho11.extra_steps Sample.header_only
  = Ok (Sample.header_only ++ [("extra_steps"%string, Float64 [])]).
Proof.
  vm_compute. reflexivity.
Qed.

(** ** Masks *)

Lemma compress_map {A B : Type} (f : A -> B) mask l :
  compress mask (map f l) = map f (compress mask l).
Proof.
  revert l. induction mask as [ | b mask IH]; intros [ | x l]; simpl; auto.
  destruct b; simpl; rewrite IH; reflexivity.
Qed.

Lemma compress_filter {A : Type} (p : A -> bool) l :
  compress (map p l) l = filter p l.
Proof.
  induction l as [ | x l IH]; simpl; auto.
  destruct (p x); rewrite IH; reflexivity.
Qed.

Lemma In_compress {A : Type} mask (l : list A) x :
  In x (compress mask l) -> In x l.
Proof.
  revert l. induction mask as [ | b mask IH]; intros [ | y l]; simpl;
    try tauto.
  destruct b; simpl; intros H; [destruct H | ]; auto.
Qed.

Lemma values_mask_series mask s :
  values (mask_series mask s) = compress mask (values s).
Proof.
  destruct s; simpl; symmetry; apply compress_map.
Qed.

Lemma getitem_mask_rows mask df c :
  getitem (mask_rows mask df) c
  = s <- getitem df c ;; Ok (mask_series mask s).
Proof.
  induction df as [ | [d s] df IH]; simpl; auto.
  destruct (String.eqb d c); auto.
Qed.

Lemma getitem_mask_rows_ok mask df c s :
  getitem df c = Ok s ->
  getitem (mask_rows mask df) c = Ok (mask_series mask s).
Proof.
  intros H. rewrite getitem_mask_rows, H. reflexivity.
Qed.

Lemma getitem_mask_rows_inv mask df c b :
  getitem (mask_rows mask df) c = Ok b ->
  exists s, getitem df c = Ok s /\ b = mask_series mask s.
Proof.
  rewrite getitem_mask_rows. intros H.
  apply bind_ok in H as (s & G & H). inversion H. eauto.
Qed.

(** ** The method filter *)

Lemma isin_selects s labels x :
  In x (compress (isin s labels) (values s)) ->
  In x (values s) /\ In x (map SStr labels).
Proof.
  unfold isin. rewrite compress_filter, filter_In. intros [I H].
  split; [exact I | ].
  destruct x; try discriminate.
  apply existsb_exists in H. destruct H as (t & It & E).
  apply String.eqb_eq in E. subst. apply in_map. exact It.
Qed.

Lemma select_methods_labels df df' s x :
  Trabalho11Src.select_methods df = Ok df' ->
  getitem df' "method_name" = Ok s ->
  In x (values s) -> In x (map SStr Trabalho11Src.methods).
Proof.
  unfold Trabalho11Src.select_methods. intros H G I. inv_ok.
  rewrite getitem_mask_rows, E in G. simpl in G. inv_ok.
  rewrite values_mask_series in I. apply isin_selects in I. tauto.
Qed.

Lemma last_per_method_labels df final s x :
  Trabalho11Src.last_per_method df = Ok final ->
  getitem final "method_name" = Ok s ->
  In x (values s) ->
  exists s', getitem df "method_name" = Ok s' /\ In x (values s').
Proof.
  unfold Trabalho11Src.last_per_method, groupby_tail. intros H G I. inv_ok.
  rewrite getitem_mask_rows, E in G. simpl in G. inv_ok.
  rewrite values_mask_series in I. apply In_compress in I. eauto.
Qed.

Lemma bar_x_column final x h b :
  Trabalho11Src.bar final x h = Ok b ->
  getitem final x = Ok (Trabalho11Src.bar_x b).
Proof.
  unfold Trabalho11Src.bar. intros H. inv_ok. assumption.
Qed.

Lemma path_efficiency_keeps final final' c :
  Trabalho11Src.path_efficiency final = Ok final' ->
  c <> "path_efficiency"%string ->
  getitem final' c = getitem final c.
Proof.
  unfold Trabalho11Src.path_efficiency. intros H N. inv_ok.
  apply getitem_setitem_other. exact N.
Qed.

Lemma isin_filters s labels :
  values (mask_series (isin s labels) s)
  = filter (has_label labels) (values s).
Proof.
  rewrite values_mask_series. apply compress_filter.
Qed.

Lemma read_csv_parse_dates_keeps parse df c df' d :
  read_csv_parse_dates parse df c = Ok df' ->
  d <> c -> getitem df' d = getitem df d.
Proof.
  unfold read_csv_parse_dates. destruct (getitem df c); intros H N;
    inversion H; subst. apply getitem_setitem_other. exact N.
Qed.

(** The rows of the three methods, and no other, are those the mask of
    line 8 keeps. *)
Lemma isin_rows m labels i :
  nth_error (isin m labels) i = Some true <->
  exists x, nth_error (values m) i = Some x /\ In x (map SStr labels).
Proof.
  unfold isin. rewrite nth_error_map. split.
  - destruct (nth_error (values m) i) as [x | ]; simpl; intros H;
      [ | discriminate].
    exists x. split; [reflexivity | ]. inversion H as [L].
    destruct x; try discriminate.
    apply existsb_exists in L. destruct L as (t & It & E).
    apply String.eqb_eq in E. subst. apply in_map. exact It.
  - intros (x & -> & I). simpl. f_equal.
    apply in_map_iff in I. destruct I as (t & <- & I). simpl.
    apply existsb_exists. exists t. split; [exact I | apply String.eqb_refl].
Qed.

Lemma bar_columns final x h b :
  Trabalho11Src.bar final x h = Ok b ->
  exists a c, getitem final x = Ok a /\ getitem final h = Ok c /\
              b = {| Trabalho11Src.bar_x := a; Trabalho11Src.bar_height := c |}.
Proof.
  unfold Trabalho11Src.bar. intros H.
  apply bind_ok in H as (a & Ga & H). apply bind_ok in H as (c & Gc & H).
  inversion H. eauto.
Qed.

(** C10.  Whatever the table, line 8 keeps the rows whose method label is
    GRID, PATH or ORCA and drops every other row, from every column at
    once; line 10 keeps the last of the kept rows of each method.  What the
    script summarizes, prints and charts is taken from these rows alone:
    every column of the final table and of the printed table, the labels
    and the heights of the four charts, and the two columns the ratio is
    computed from.  No method label other than the three reaches any of
    them. *)
Theorem only_selected_methods parse df out :
  Trabalho11Src.main parse df = Ok out ->
  exists m,
    getitem df "method_name" = Ok m /\
    let keep := isin m Trabalho11Src.methods in
    let last := tail_mask 1 (mask_series keep m) in
    let rows := fun s => mask_series last (mask_series keep s) in
    (forall i, nth_error keep i = Some true <->
               exists x, nth_error (values m) i = Some x /\
                         In x (map SStr Trabalho11Src.methods)) /\
    (forall x, In x (values (rows m)) ->
               In x (map SStr Trabalho11Src.methods)) /\
    (forall c s, c <> "timestamp"%string -> c <> "path_efficiency"%string ->
                 getitem df c = Ok s ->
                 getitem (Trabalho11Src.final out) c = Ok (rows s)) /\
    (forall s, getitem df "timestamp" = Ok s ->
               getitem (Trabalho11Src.final out) "timestamp"
               = Ok (rows (parse_dates_column parse s))) /\
    columns (Trabalho11Src.printed out) = Trabalho11Src.report /\
    (forall c, In c Trabalho11Src.report ->
               exists s, getitem df c = Ok s /\
                         getitem (Trabalho11Src.printed out) c = Ok (rows s)) /\
    (exists collisions total_steps planned actual ratio,
        getitem df "collisions" = Ok collisions /\
        getitem df "total_steps" = Ok total_steps /\
        getitem df "total_path_length" = Ok planned /\
        getitem df "actual_distance" = Ok actual /\
        truediv (rows planned) (rows actual) = Ok ratio /\
        getitem (Trabalho11Src.final out) "path_efficiency" = Ok ratio /\
        Trabalho11Src.charts out
        = [{| Trabalho11Src.bar_x := rows m;
              Trabalho11Src.bar_height := rows collisions |};
           {| Trabalho11Src.bar_x := rows m;
              Trabalho11Src.bar_height := rows total_steps |};
           {| Trabalho11Src.bar_x := rows m;
              Trabalho11Src.bar_height := ratio |};
           {| Trabalho11Src.bar_x := rows m;
              Trabalho11Src.bar_height := rows actual |}]).
Proof.
  unfold Trabalho11Src.main. intros H.
  apply bind_ok in H as (df1 & R & H).
  apply bind_ok in H as (df2 & S & H).
  apply bind_ok in H as (fin & L & H).
  apply bind_ok in H as (pr & P & H).
  apply bind_ok in H as (c1 & B1 & H).
  apply bind_ok in H as (c2 & B2 & H).
  apply bind_ok in H as (fin' & PE & H).
  apply bind_ok in H as (c3 & B3 & H).
  apply bind_ok in H as (c4 & B4 & H).
  inversion H; subst out; clear H.
  cbn [Trabalho11Src.final Trabalho11Src.printed Trabalho11Src.charts].
  unfold read_csv_parse_dates in R.
  destruct (getitem df "timestamp") as [ts | e] eqn:Gt; [ | discriminate].
  inversion R; subst df1; clear R.
  unfold Trabalho11Src.select_methods in S.
  apply bind_ok in S as (m & Gm & S). inversion S; subst df2; clear S.
  rewrite getitem_setitem_other in Gm by discriminate.
  unfold Trabalho11Src.last_per_method, groupby_tail in L.
  apply bind_ok in L as (key & Gk & L). inversion L; subst fin; clear L.
  rewrite getitem_mask_rows, getitem_setitem_other, Gm in Gk by discriminate.
  simpl in Gk. inversion Gk; subst key; clear Gk.
  exists m. split; [exact Gm | ].
  set (keep := isin m Trabalho11Src.methods) in *.
  set (last := tail_mask 1 (mask_series keep m)) in *.
  set (df1 := setitem df "timestamp" (parse_dates_column parse ts)) in *.
  set (fin := mask_rows last (mask_rows keep df1)) in *.
  cbv zeta.
  assert (K1 : forall c, c <> "timestamp"%string ->
                         getitem df1 c = getitem df c)
    by (intros c N; apply getitem_setitem_other; exact N).
  assert (GF : forall c s, getitem df1 c = Ok s ->
                 getitem fin c = Ok (mask_series last (mask_series keep s)))
    by (intros c s G; apply getitem_mask_rows_ok, getitem_mask_rows_ok, G).
  assert (GI : forall c b, c <> "timestamp"%string -> getitem fin c = Ok b ->
                 exists s, getitem df c = Ok s /\
                           b = mask_series last (mask_series keep s)).
  { intros c b N G. apply getitem_mask_rows_inv in G.
    destruct G as (s1 & G & ->). apply getitem_mask_rows_inv in G.
    destruct G as (s0 & G & ->). rewrite K1 in G by exact N. eauto. }
  assert (KP : forall c, c <> "path_efficiency"%string ->
                         getitem fin' c = getitem fin c)
    by (intros c N; apply (path_efficiency_keeps _ _ _ PE), N).
  assert (Gm' : getitem fin "method_name"
                = Ok (mask_series last (mask_series keep m)))
    by (apply GF; rewrite K1 by discriminate; exact Gm).
  split; [apply isin_rows | ].
  split.
  { intros x I. rewrite values_mask_series in I. apply In_compress in I.
    rewrite values_mask_series in I. apply isin_selects in I. tauto. }
  split.
  { intros c s Nt Np G. rewrite KP by exact Np. apply GF.
    rewrite K1 by exact Nt. exact G. }
  split.
  { intros s G. inversion G; subst s. rewrite KP by discriminate.
    apply GF. apply getitem_setitem_same. }
  split; [apply (columns_select_columns _ _ _ P) | ].
  split.
  { intros c I. rewrite (getitem_selected _ _ _ _ P I).
    assert (N : c <> "timestamp"%string)
      by (simpl in I; intuition (subst; discriminate)).
    destruct (select_columns_ok _ _ _ P) as [_ Q].
    destruct (getitem_present _ _ (Q c I)) as [b G].
    destruct (GI c b N G) as (s & Gs & ->). exists s. rewrite G. auto. }
  apply bar_columns in B1, B2, B3, B4.
  destruct B1 as (x1 & h1 & X1 & H1 & ->).
  destruct B2 as (x2 & h2 & X2 & H2 & ->).
  destruct B3 as (x3 & h3 & X3 & H3 & ->).
  destruct B4 as (x4 & h4 & X4 & H4 & ->).
  rewrite KP in X3, X4, H4 by discriminate.
  rewrite Gm' in X1, X2, X3, X4.
  inversion X1; subst x1. inversion X2; subst x2.
  inversion X3; subst x3. inversion X4; subst x4.
  destruct (GI "collisions"%string _ ltac:(discriminate) H1) as (collisions & Gc & ->).
  destruct (GI "total_steps"%string _ ltac:(discriminate) H2) as (total_steps & Gs & ->).
  destruct (GI "actual_distance"%string _ ltac:(discriminate) H4) as (actual & Ga & ->).
  unfold Trabalho11Src.path_efficiency in PE.
  apply bind_ok in PE as (p & Gp & PE).
  apply bind_ok in PE as (a & Ga' & PE).
  apply bind_ok in PE as (ratio & T & PE).
  inversion PE; subst fin'; clear PE.
  destruct (GI "total_path_length"%string _ ltac:(discriminate) Gp) as (planned & Gpl & ->).
  rewrite H4 in Ga'. inversion Ga'; subst a.
  rewrite getitem_setitem_same in H3. inversion H3; subst h3.
  exists collisions, total_steps, planned, actual, ratio.
  repeat (split; [assumption | ]).
  split; [apply getitem_setitem_same | reflexivity].
Qed.

(** The theorem on the sample run: the row of the fourth method reaches
    neither the labels nor the heights of the charts, which show the last
    GRID row and the PATH row. *)
Lemma only_selected_methods_witness :
  exists out,
    Trabalho11Src.main Sample.iso_date Sample.runs = Ok out /\
    Trabalho11Src.charts out
    = [{| Trabalho11Src.bar_x := Object [Some "GRID"; Some "PATH"]%string;
          Trabalho11Src.bar_height := Int64 [5; 1]%Z |};
       {| Trabalho11Src.bar_x := Object [Some "GRID"; Some "PATH"]%string;
          Trabalho11Src.bar_height := Int64 [20; 12]%Z |};
       {| Trabalho11Src.bar_x := Object [Some "GRID"; Some "PATH"]%string;
          Trabalho11Src.bar_height := Float64 [1; 1]%float |};
       {| Trabalho11Src.bar_x := Object [Some "GRID"; Some "PATH"]%string;
          Trabalho11Src.bar_height := Float64 [12; 9]%float |}].
Proof.
  destruct (Trabalho11Src.main Sample.iso_date Sample.runs) as [out | e]
    eqn:R; [ | vm_compute in R; discriminate].
  exists out. split; [reflexivity | ].
  destruct (only_selected_methods _ _ _ R)
    as (m & Gm & _ & _ & _ & _ & _ & _ & C).
  destruct C as (c & t & p & a & r & Gc & Gt & Gp & Ga & T & _ & ->).
  vm_compute in Gm, Gc, Gt, Gp, Ga.
  inversion Gm; inversion Gc; inversion Gt; inversion Gp; inversion Ga.
  subst m c t p a. vm_compute in T. inversion T; subst r.
  vm_compute. reflexivity.
Defined.

(** ** Ratios *)

(** C3 (amended).  On numeric columns the ratio of lines 51 to 53 always
    runs; in a row whose distance is zero the ratio is missing (NaN) when
    the planned length is itself zero or missing, and an infinity
    otherwise. *)
Theorem path_efficiency_zero_distance final planned actual p a :
  getitem final "total_path_length" = Ok planned ->
  getitem final "actual_distance" = Ok actual ->
  as_float planned = Ok p ->
  as_float actual = Ok a ->
  exists final' r,
    Trabalho11Src.path_efficiency final = Ok final' /\
    getitem final' "path_efficiency" = Ok (Float64 r) /\
    forall i x y,
      nth_error p i = Some x -> nth_error a i = Some y ->
      F64.is_zero y = true ->
      nth_error r i = Some (x / y)%float /\
      ((x / y)%float = nan \/ (x / y)%float = infinity \/
       (x / y)%float = neg_infinity) /\
      F64.isna (x / y) = (F64.isna x || F64.is_zero x)%bool.
Proof.
  intros H1 H2 Hp Ha.
  exists (setitem final "path_efficiency"
            (Float64 (zip_with PrimFloat.div p a))),
    (zip_with PrimFloat.div p a).
  split; [ | split].
  - unfold Trabalho11Src.path_efficiency, truediv.
    rewrite H1, H2. simpl. rewrite Hp, Ha. reflexivity.
  - apply getitem_setitem_same.
  - intros i x y Hx Hy Z. split.
    + apply (nth_error_zip_with PrimFloat.div Hx Hy).
    + apply div_by_zero. exact Z.
Qed.

(** The theorem at [ratio(planned=0, actual=0)]: the ratio is missing. *)
Lemma path_efficiency_zero_distance_witness :
  exists final' r,
    Trabalho11Src.path_efficiency
      [("total_path_length"%string, Float64 [0]%float);
       ("actual_distance"%string, Float64 [0]%float)] = Ok final' /\
    getitem final' "path_efficiency" = Ok (Float64 r) /\
    nth_error r 0 = Some nan.
Proof.
  destruct (path_efficiency_zero_distance
              [("total_path_length"%string, Float64 [0]%float);
               ("actual_distance"%string, Float64 [0]%float)]
              _ _ _ _ eq_refl eq_refl eq_refl eq_refl)
    as (final' & r & R & G & Z).
  exists final', r. split; [exact R | ]. split; [exact G | ].
  destruct (Z 0%nat 0%float 0%float eq_refl eq_refl eq_refl) as (N & _ & _).
  exact N.
Defined.

(** C3 as stated fails: [ratio(planned=12, actual=0)] is an infinity, which
    is not a missing value. *)
Lemma path_efficiency_infinite :
  Trabalho11Src.path_efficiency Sample.stalled
  = Ok (Sample.stalled ++ [("path_efficiency"%string, Float64 [infinity])]) /\
  F64.isna infinity = false /\
  iat (Float64 [infinity]) 0 = Some (SFloat infinity).
Proof.
  repeat split; vm_compute; reflexivity.
Qed.

(** ** Keys *)

Lemma scalar_eqb_spec a b : scalar_eqb a b = true <-> a = b.
Proof.
  destruct a, b; simpl; split; intros H; try discriminate; try reflexivity.
  - apply Z.eqb_eq in H. congruence.
  - inversion H. apply Z.eqb_refl.
  - apply FloatAxioms.Leibniz.eqb_spec in H. congruence.
  - inversion H. apply FloatAxioms.Leibniz.eqb_spec. reflexivity.
  - apply String.eqb_eq in H. congruence.
  - inversion H. apply String.eqb_refl.
  - apply Z.eqb_eq in H. congruence.
  - inversion H. apply Z.eqb_refl.
Qed.

Lemma scalar_eqb_refl a : scalar_eqb a a = true.
Proof. apply scalar_eqb_spec. reflexivity. Qed.

Lemma has_key_spec k o : has_key k o = true <-> o = Some k.
Proof.
  destruct o as [k' | ]; simpl.
  - rewrite scalar_eqb_spec. split; congruence.
  - split; discriminate.
Qed.

Lemma In_present {A : Type} (l : list (option A)) x :
  In x (present l) <-> In (Some x) l.
Proof.
  induction l as [ | [y | ] l IH]; simpl.
  - tauto.
  - rewrite IH. split; intros [H | H]; auto; left; congruence.
  - rewrite IH. split; [auto | intros [H | H]; [discriminate | auto]].
Qed.

Lemma existsb_scalar x l : existsb (scalar_eqb x) l = true <-> In x l.
Proof.
  rewrite existsb_exists. split.
  - intros (y & I & E). apply scalar_eqb_spec in E. congruence.
  - intros I. exists x. split; [exact I | apply scalar_eqb_refl].
Qed.

Lemma In_unique x l : In x (unique l) <-> In x l.
Proof.
  induction l as [ | y l IH]; simpl; [tauto | ].
  rewrite filter_In, IH. split.
  - intros [H | [H _]]; auto.
  - intros [H | H]; auto.
    destruct (scalar_eqb y x) eqn:E.
    + left. apply scalar_eqb_spec. exact E.
    + right. auto.
Qed.

Lemma NoDup_unique l : NoDup (unique l).
Proof.
  induction l as [ | y l IH]; simpl; constructor.
  - rewrite filter_In. intros [_ H]. rewrite scalar_eqb_refl in H.
    discriminate.
  - apply NoDup_filter. exact IH.
Qed.

Lemma insert_sorted_perm x l : Permutation (insert_sorted x l) (x :: l).
Proof.
  induction l as [ | y l IH]; simpl; auto.
  destruct (scalar_leb x y); auto.
  rewrite IH. apply perm_swap.
Qed.

Lemma sort_keys_perm l : Permutation (sort_keys l) l.
Proof.
  induction l as [ | x l IH]; simpl; auto.
  rewrite insert_sorted_perm. auto.
Qed.

(** ** Positions *)

Lemma In_where_from mask j i :
  In i (where_from j mask) <->
  exists p, i = j + p /\ nth_error mask p = Some true.
Proof.
  revert j. induction mask as [ | b mask IH]; intros j; simpl.
  - split; [tauto | intros (p & _ & H); destruct p; discriminate].
  - assert (R : In i (where_from (S j) mask) <->
                exists p, i = j + S p /\ nth_error mask p = Some true).
    { rewrite IH. split; intros (p & E & H); exists p; split; auto; lia. }
    destruct b; simpl; rewrite R; split.
    + intros [<- | (p & E & H)].
      * exists 0. split; [lia | reflexivity].
      * exists (S p). auto.
    + intros ([ | p] & E & H); [left; lia | right; eauto].
    + intros (p & E & H). exists (S p). auto.
    + intros ([ | p] & E & H); [discriminate | eauto].
Qed.

Lemma In_flatnonzero mask i :
  In i (flatnonzero mask) <-> nth_error mask i = Some true.
Proof.
  unfold flatnonzero. rewrite In_where_from. split.
  - intros (p & -> & H). exact H.
  - intros H. exists i. auto.
Qed.

Lemma NoDup_where_from mask j : NoDup (where_from j mask).
Proof.
  revert j. induction mask as [ | b mask IH]; intros j; simpl;
    [constructor | ].
  destruct b; [ | apply IH]. constructor; [ | apply IH].
  rewrite In_where_from. intros (p & E & _). lia.
Qed.

Lemma In_positions k ks i :
  In i (flatnonzero (map (has_key k) ks)) <-> nth_error ks i = Some (Some k).
Proof.
  rewrite In_flatnonzero, nth_error_map.
  destruct (nth_error ks i) as [o | ]; simpl.
  - split; intros H.
    + inversion H as [E]. apply has_key_spec in E. congruence.
    + inversion H. f_equal. apply has_key_spec. reflexivity.
  - split; discriminate.
Qed.

Lemma take_where_from {A : Type} mask (pre l : list A) :
  take (where_from (List.length pre) mask) (pre ++ l) = compress mask l.
Proof.
  revert pre l. induction mask as [ | b mask IH]; intros pre l; simpl;
    [reflexivity | ].
  destruct l as [ | x l].
  - assert (E : forall idx, (forall i, In i idx -> List.length pre <= i) ->
                            take idx (pre ++ []) = []).
    { induction idx as [ | i idx IHi]; simpl; intros H; [reflexivity | ].
      rewrite IHi by auto.
      destruct (nth_error (pre ++ []) i) eqn:N; [ | reflexivity].
      assert (L : i < List.length (pre ++ []))
        by (apply nth_error_Some; congruence).
      rewrite app_nil_r in L.
      specialize (H i (or_introl eq_refl)). lia. }
    destruct b; apply E; intros i H;
      try (destruct H as [<- | H]; [lia | ]);
      apply In_where_from in H; destruct H as (p & -> & _); lia.
  - specialize (IH (pre ++ [x]) l).
    rewrite <- app_assoc, length_app in IH. simpl in IH.
    rewrite Nat.add_1_r in IH.
    destruct b; simpl; [ | exact IH].
    rewrite nth_error_app2, Nat.sub_diag by lia. simpl.
    rewrite IH. reflexivity.
Qed.

Lemma compress_take {A : Type} mask (l : list A) :
  compress mask l = take (flatnonzero mask) l.
Proof.
  symmetry. apply (take_where_from mask [] l).
Qed.

(** ** Groups *)

Lemma In_indices key k idx :
  In (k, idx) (indices key) <->
  In (Some k) (group_keys key) /\
  idx = flatnonzero (map (has_key k) (group_keys key)).
Proof.
  unfold indices. rewrite in_map_iff. split.
  - intros (k' & E & I). inversion E; subst. split; [ | reflexivity].
    apply In_present, In_unique.
    apply (Permutation_in _ (sort_keys_perm _)). exact I.
  - intros (I & ->). exists k. split; [reflexivity | ].
    apply (Permutation_in _ (Permutation_sym (sort_keys_perm _))).
    apply In_unique, In_present. exact I.
Qed.

Lemma indices_keys key :
  map fst (indices key) = sort_keys (unique (present (group_keys key))).
Proof.
  unfold indices. rewrite map_map. simpl. apply map_id.
Qed.

Lemma NoDup_indices_keys key : NoDup (map fst (indices key)).
Proof.
  rewrite indices_keys.
  apply (Permutation_NoDup (Permutation_sym (sort_keys_perm _))).
  apply NoDup_unique.
Qed.

Lemma NoDup_concat_map {A B : Type} (f : A -> list B) (l : list A) :
  NoDup l ->
  (forall a, In a l -> NoDup (f a)) ->
  (forall a a' x, In a l -> In a' l -> In x (f a) -> In x (f a') -> a = a') ->
  NoDup (List.concat (map f l)).
Proof.
  induction l as [ | a l IH]; simpl; intros N Hf D; [constructor | ].
  inversion N as [ | ? ? Na Nl]; subst.
  apply NoDup_app.
  - apply Hf. auto.
  - apply IH; auto. intros b b' x Ib Ib'. apply D; auto.
  - intros x Ia Ix. apply in_concat in Ix. destruct Ix as (m & Im & Ix).
    apply in_map_iff in Im. destruct Im as (b & <- & Ib).
    assert (a = b) by (apply (D a b x); auto). subst. contradiction.
Qed.

Lemma In_members key i :
  In i (List.concat (map snd (indices key))) <->
  exists k, nth_error (group_keys key) i = Some (Some k).
Proof.
  rewrite in_concat. split.
  - intros (idx & I & Ii). apply in_map_iff in I.
    destruct I as ([k idx'] & E & I). simpl in E. subst.
    apply In_indices in I. destruct I as (_ & ->).
    exists k. apply In_positions. exact Ii.
  - intros (k & N).
    exists (flatnonzero (map (has_key k) (group_keys key))). split.
    + apply in_map_iff. exists (k, flatnonzero (map (has_key k) (group_keys key))).
      split; [reflexivity | ]. apply In_indices. split; [ | reflexivity].
      eapply nth_error_In. exact N.
    + apply In_positions. exact N.
Qed.

Lemma NoDup_members key : NoDup (List.concat (map snd (indices key))).
Proof.
  unfold indices. rewrite map_map. simpl.
  apply NoDup_concat_map.
  - rewrite <- indices_keys. apply NoDup_indices_keys.
  - intros k _. apply NoDup_where_from.
  - intros k k' i _ _ H H'. apply In_positions in H, H'. congruence.
Qed.

Lemma group_key_present x : x <> NA -> exists k, group_key x = Some k.
Proof.
  destruct x; simpl; eauto. congruence.
Qed.

(** C4 (amended).  The groups partition the rows whose key is present:
    a group holds exactly the rows of its key and is not empty, no row is
    in two groups, and the rows in some group are the rows with a key.  A
    row whose key is missing is in no group, so the groups cover the whole
    table exactly when no key is missing. *)
Theorem groups_partition_rows_with_key key :
  NoDup (map fst (indices key)) /\
  (forall k idx, In (k, idx) (indices key) ->
     idx <> [] /\
     forall i, In i idx <-> nth_error (group_keys key) i = Some (Some k)) /\
  NoDup (List.concat (map snd (indices key))) /\
  (forall i, In i (List.concat (map snd (indices key))) <->
             exists k, nth_error (group_keys key) i = Some (Some k)) /\
  (Forall (fun x => x <> NA) (values key) ->
   Permutation (List.concat (map snd (indices key))) (seq 0 (size key))).
Proof.
  split; [apply NoDup_indices_keys | ]. split; [ | split; [ | split]].
  - intros k idx I. apply In_indices in I. destruct I as (I & ->).
    assert (P : forall i, In i (flatnonzero (map (has_key k) (group_keys key)))
                          <-> nth_error (group_keys key) i = Some (Some k))
      by (intros i; apply In_positions).
    split; [ | exact P].
    apply In_nth_error in I. destruct I as [i I]. apply P in I.
    intros E. rewrite E in I. exact I.
  - apply NoDup_members.
  - apply In_members.
  - intros F. apply NoDup_Permutation.
    + apply NoDup_members.
    + apply seq_NoDup.
    + intros i. rewrite In_members, in_seq. unfold size, group_keys.
      rewrite nth_error_map. split.
      * intros (k & N).
        destruct (nth_error (values key) i) eqn:E; [ | discriminate].
        assert (i < List.length (values key))
          by (apply nth_error_Some; congruence). lia.
      * intros [_ L]. simpl in L.
        destruct (nth_error (values key) i) as [x | ] eqn:E.
        -- rewrite Forall_forall in F.
           destruct (group_key_present x) as [k K].
           ++ apply F. eapply nth_error_In. exact E.
           ++ exists k. simpl. congruence.
        -- apply nth_error_None in E. lia.
Qed.

(** C4 as stated fails on a table with a missing key: the second row of
    this two-row table is in no group. *)
Lemma row_without_key_in_no_group :
  indices (Float64 [5; nan]%float) = [(SFloat 5, [0])] /\
  size (Float64 [5; nan]%float) = 2.
Proof.
  split; vm_compute; reflexivity.
Qed.

(** ** The last row of each group *)

Lemma group_keys_mask_series mask s :
  group_keys (mask_series mask s) = compress mask (group_keys s).
Proof.
  unfold group_keys. rewrite values_mask_series. symmetry.
  apply compress_map.
Qed.

Lemma filter_has_key k ks o :
  In o (filter (has_key k) ks) <-> o = Some k /\ In k (present ks).
Proof.
  rewrite filter_In, has_key_spec, In_present.
  split; intros [H1 H2]; subst; auto.
Qed.

(** A row is the last of its group when no later row has its key. *)
Lemma cumcount_desc_zero k ks :
  Nat.ltb (List.length (filter (has_key k) ks)) 1
  = negb (existsb (scalar_eqb k) (present ks)).
Proof.
  destruct (existsb (scalar_eqb k) (present ks)) eqn:X; simpl.
  - apply existsb_scalar in X.
    assert (I : In (Some k) (filter (has_key k) ks))
      by (apply filter_has_key; auto).
    destruct (filter (has_key k) ks); [destruct I | reflexivity].
  - destruct (filter (has_key k) ks) as [ | o l] eqn:E; [reflexivity | ].
    assert (I : In o (filter (has_key k) ks)) by (rewrite E; left; reflexivity).
    apply filter_has_key in I. destruct I as [_ I].
    apply (proj2 (existsb_scalar _ _)) in I.
    rewrite I in *; discriminate.
Qed.

Lemma tail_mask_last_seen ks :
  present (compress (map (within_last 1) (cumcount_desc ks)) ks)
  = Spec.last_seen (present ks).
Proof.
  induction ks as [ | [k | ] ks IH]; simpl; auto.
  rewrite cumcount_desc_zero.
  destruct (existsb (scalar_eqb k) (present ks)); simpl; congruence.
Qed.

Lemma In_last_seen x l : In x (Spec.last_seen l) <-> In x l.
Proof.
  induction l as [ | y l IH]; simpl; [tauto | ].
  destruct (existsb (scalar_eqb y) l) eqn:X; simpl; rewrite IH.
  - apply existsb_scalar in X. split; [auto | intros [<- | H]; auto].
  - tauto.
Qed.

Lemma NoDup_last_seen l : NoDup (Spec.last_seen l).
Proof.
  induction l as [ | y l IH]; simpl; [constructor | ].
  destruct (existsb (scalar_eqb y) l) eqn:X; [exact IH | ].
  constructor; [ | exact IH].
  intros I. apply (proj1 (In_last_seen _ _)) in I.
  apply (proj2 (existsb_scalar _ _)) in I.
    rewrite I in *; discriminate.
Qed.

Lemma filter_unique_absent x l :
  ~ In x l -> filter (fun y => negb (scalar_eqb x y)) (unique l) = unique l.
Proof.
  intros N. apply forallb_filter_id. apply forallb_forall. intros y I.
  apply (proj1 (In_unique _ _)) in I.
  destruct (scalar_eqb x y) eqn:E; [ | reflexivity].
  apply scalar_eqb_spec in E. subst. contradiction.
Qed.

Lemma filter_filter_same {A : Type} (p : A -> bool) l :
  filter p (filter p l) = filter p l.
Proof.
  apply forallb_filter_id. apply forallb_forall. intros y I.
  apply filter_In in I. tauto.
Qed.

(** When every key's rows are next to each other the keys' last rows come
    in the order the keys are first seen. *)
Lemma contiguous_last_seen l :
  Spec.contiguous l = true -> Spec.last_seen l = unique l.
Proof.
  induction l as [ | x l IH]; simpl; [reflexivity | ].
  intros H. apply andb_prop in H. destruct H as [H C].
  specialize (IH C).
  destruct (existsb (scalar_eqb x) l) eqn:X; simpl in H.
  - destruct l as [ | y l]; [discriminate | ].
    apply scalar_eqb_spec in H. subst y.
    rewrite IH. simpl. rewrite scalar_eqb_refl. simpl.
    rewrite filter_filter_same. reflexivity.
  - rewrite IH, filter_unique_absent; [reflexivity | ].
    intros I. apply (proj2 (existsb_scalar _ _)) in I.
    rewrite I in *; discriminate.
Qed.

(** ** Ascending keys *)

Lemma ltb_implies_leb x y : (x <? y)%float = true -> (x <=? y)%float = true.
Proof.
  rewrite ltb_spec, leb_spec. unfold SFltb, SFleb.
  destruct (SFcompare (Prim2SF x) (Prim2SF y)) as [[] | ]; congruence.
Qed.

Lemma leb_total x y :
  is_nan x = false -> is_nan y = false ->
  (x <=? y)%float = false -> (y <=? x)%float = true.
Proof.
  intros Hx Hy H. apply ltb_implies_leb.
  rewrite (ltb_leb x y Hx Hy), H. reflexivity.
Qed.

Lemma scalar_leb_total a b :
  valid_key a -> valid_key b -> scalar_leb a b = false -> scalar_leb b a = true.
Proof.
  destruct a, b; simpl; intros Va Vb H; try reflexivity; try discriminate.
  - apply Z.leb_le. apply Z.leb_gt in H. lia.
  - apply leb_total; assumption.
  - destruct (String.leb_total s s0); congruence.
  - apply Z.leb_le. apply Z.leb_gt in H. lia.
Qed.

Lemma valid_values s : Forall valid_key (values s).
Proof.
  destruct s as [v | v | v | v]; simpl; apply Forall_forall; intros x I;
    apply in_map_iff in I; destruct I as (y & <- & _); simpl; auto.
  - unfold float_cell, F64.isna. destruct (is_nan y) eqn:N; simpl; auto.
  - destruct y; simpl; auto.
  - destruct y; simpl; auto.
Qed.

Lemma valid_group_key x k : valid_key x -> group_key x = Some k -> valid_key k.
Proof.
  destruct x; simpl; intros V H; inversion H; subst; simpl; auto.
  unfold F64.canon. destruct (F64.is_zero f); [reflexivity | exact V].
Qed.

Lemma valid_group_keys s k : In (Some k) (group_keys s) -> valid_key k.
Proof.
  unfold group_keys. intros I. apply in_map_iff in I.
  destruct I as (x & E & I). apply (valid_group_key x); [ | exact E].
  assert (F := valid_values s). rewrite Forall_forall in F. auto.
Qed.

Lemma HdRel_insert_sorted y x l :
  HdRel ascending y l -> ascending y x -> HdRel ascending y (insert_sorted x l).
Proof.
  intros H R. destruct l as [ | z l]; simpl.
  - constructor. exact R.
  - destruct (scalar_leb x z); constructor; [exact R | ].
    inversion H; assumption.
Qed.

Lemma Sorted_insert_sorted x l :
  valid_key x -> Forall valid_key l ->
  Sorted ascending l -> Sorted ascending (insert_sorted x l).
Proof.
  intros Vx. induction l as [ | y l IH]; simpl; intros V S.
  - constructor; constructor.
  - inversion V; subst. inversion S; subst.
    destruct (scalar_leb x y) eqn:E.
    + constructor; [exact S | constructor; exact E].
    + constructor; [auto | ].
      apply HdRel_insert_sorted; [assumption | ].
      apply scalar_leb_total; assumption.
Qed.

Lemma Sorted_sort_keys l :
  Forall valid_key l -> Sorted ascending (sort_keys l).
Proof.
  induction l as [ | x l IH]; simpl; intros V; [constructor | ].
  inversion V; subst. apply Sorted_insert_sorted; auto.
  apply Forall_forall. intros y I.
  apply (Permutation_in _ (sort_keys_perm l)) in I.
  rewrite Forall_forall in H2. auto.
Qed.

Lemma Sorted_indices key : Sorted ascending (map fst (indices key)).
Proof.
  rewrite indices_keys. apply Sorted_sort_keys.
  apply Forall_forall. intros k I.
  apply (proj1 (In_unique _ _)) in I.
  apply (proj1 (In_present _ _)) in I.
  eapply valid_group_keys. exact I.
Qed.

(** ** Summaries *)

Lemma last_per_method_runs df key :
  getitem df "method_name" = Ok key ->
  Trabalho11Src.last_per_method df = Ok (mask_rows (tail_mask 1 key) df).
Proof.
  intros H. unfold Trabalho11Src.last_per_method, groupby_tail.
  rewrite H. reflexivity.
Qed.

(** C5 (amended).  The last-row summaries come in the order of the keys'
    last rows, because [tail] keeps the table's row order; this is the
    order in which the keys are first seen whenever each key's rows are
    next to each other, as in the specification's scenario.  The groups of
    the mean reduction come in ascending key order. *)
Theorem summaries_follow_last_rows :
  (forall df key,
     getitem df "method_name" = Ok key ->
     exists final s,
       Trabalho11Src.last_per_method df = Ok final /\
       getitem final "method_name" = Ok s /\
       present (group_keys s) = Spec.last_seen (present (group_keys key)) /\
       (Spec.contiguous (present (group_keys key)) = true ->
        present (group_keys s) = unique (present (group_keys key)))) /\
  (forall key, Sorted ascending (map fst (indices key))).
Proof.
  split; [ | apply Sorted_indices].
  intros df key H.
  exists (mask_rows (tail_mask 1 key) df), (mask_series (tail_mask 1 key) key).
  split; [apply last_per_method_runs; exact H | ].
  split; [rewrite getitem_mask_rows, H; reflexivity | ].
  assert (E : present (group_keys (mask_series (tail_mask 1 key) key))
              = Spec.last_seen (present (group_keys key))).
  { rewrite group_keys_mask_series. apply tail_mask_last_seen. }
  split; [exact E | ].
  intros C. rewrite E. apply contiguous_last_seen. exact C.
Qed.

(** The specification's scenario: GRID, GRID, PATH gives the summaries
    [GRID: 5], [PATH: 1] in this order. *)
Example scenario_summaries :
  Trabalho11Src.last_per_method Sample.scenario
  = Ok [("timestamp"%string, Datetime [Some 2; Some 1]%Z);
        ("method_name"%string, Object [Some "GRID"; Some "PATH"]%string);
        ("collisions"%string, Int64 [5; 1]%Z)].
Proof.
  vm_compute. reflexivity.
Qed.

(** C5 as stated fails on both grouping paths.  With GRID, PATH, GRID the
    last-row summaries come as PATH, GRID, while GRID is seen first; with
    start-point counts 5, 3 the mean groups come as 3, 5. *)
Lemma summaries_not_in_first_seen_order :
  Trabalho11Src.last_per_method Sample.interleaved
  = Ok [("timestamp"%string, Datetime [Some 1; Some 2]%Z);
        ("method_name"%string, Object [Some "PATH"; Some "GRID"]%string);
        ("collisions"%string, Int64 [1; 5]%Z)] /\
  unique (present (group_keys
                     (Object [Some "GRID"; Some "PATH"; Some "GRID"]%string)))
  = [SStr "GRID"; SStr "PATH"] /\
  map fst (indices (Int64 [5; 3]%Z)) = [SInt 3; SInt 5] /\
  unique (present (group_keys (Int64 [5; 3]%Z))) = [SInt 5; SInt 3].
Proof.
  repeat split; vm_compute; reflexivity.
Qed.

(** ** The last reduction *)

Lemma nth_error_tail_mask ks i :
  nth_error (map (within_last 1) (cumcount_desc ks)) i = Some true <->
  exists k, nth_error ks i = Some (Some k) /\
            forall j, i < j -> nth_error ks j <> Some (Some k).
Proof.
  revert i. induction ks as [ | o ks IH]; intros i.
  - destruct i; simpl; split; try discriminate;
      intros (k & H & _); discriminate.
  - destruct i as [ | i]; simpl.
    + destruct o as [k | ]; simpl.
      * rewrite cumcount_desc_zero. split.
        -- intros H. inversion H as [X]. exists k. split; [reflexivity | ].
           intros [ | j] L N; [lia | ]. simpl in N.
           apply nth_error_In in N.
           apply (proj2 (In_present _ _)) in N.
           apply (proj2 (existsb_scalar _ _)) in N.
           rewrite N in X. discriminate.
        -- intros (k' & E & L). inversion E; subst k'. f_equal.
           destruct (existsb (scalar_eqb k) (present ks)) eqn:X;
             [ | reflexivity].
           apply existsb_scalar, In_present, In_nth_error in X.
           destruct X as [j N]. exfalso. apply (L (S j)); [lia | exact N].
      * split; [discriminate | intros (k & E & _); discriminate].
    + rewrite IH. split; intros (k & E & L); exists k; split; auto.
      * intros [ | j] Lt; [lia | ]. simpl. apply L. lia.
      * intros j Lt. apply (L (S j)). lia.
Qed.

Lemma In_tail_rows key i :
  In i (flatnonzero (tail_mask 1 key)) <->
  exists k, nth_error (group_keys key) i = Some (Some k) /\
            forall j, i < j -> nth_error (group_keys key) j <> Some (Some k).
Proof.
  rewrite In_flatnonzero. apply nth_error_tail_mask.
Qed.

Lemma chronological_spec ts :
  Spec.chronological ts = true ->
  forall i j ti tj,
    i <= j ->
    nth_error ts i = Some (Some ti) -> nth_error ts j = Some (Some tj) ->
    (ti <= tj)%Z.
Proof.
  induction ts as [ | [a | ] ts IH]; simpl; intros C i j ti tj L Hi Hj.
  - destruct i; discriminate.
  - apply andb_prop in C. destruct C as [F C].
    destruct i as [ | i], j as [ | j]; simpl in *; try lia.
    + inversion Hi; inversion Hj; subst. lia.
    + inversion Hi; subst. rewrite forallb_forall in F.
      apply nth_error_In in Hj. specialize (F _ Hj). simpl in F.
      apply Z.leb_le. exact F.
    + apply (IH C i j); auto. lia.
  - discriminate.
Qed.

(** C2 (amended).  The summary of a group is the group's last row in the
    table's row order, one row per key.  It is the chronologically last
    row of the group when the rows are in timestamp order. *)
Theorem last_reduction_keeps_last_row df key :
  getitem df "method_name" = Ok key ->
  exists final,
    Trabalho11Src.last_per_method df = Ok final /\
    (forall c s, getitem df c = Ok s ->
       exists s', getitem final c = Ok s' /\
                  values s' = take (flatnonzero (tail_mask 1 key)) (values s)) /\
    (forall i, In i (flatnonzero (tail_mask 1 key)) <->
       exists k, nth_error (group_keys key) i = Some (Some k) /\
                 forall j, i < j ->
                           nth_error (group_keys key) j <> Some (Some k)) /\
    NoDup (present (compress (tail_mask 1 key) (group_keys key))) /\
    (forall k, In k (present (compress (tail_mask 1 key) (group_keys key)))
               <-> In (Some k) (group_keys key)) /\
    (forall ts, getitem df "timestamp" = Ok (Datetime ts) ->
       Spec.chronological ts = true ->
       forall i j k ti tj,
         In i (flatnonzero (tail_mask 1 key)) ->
         nth_error (group_keys key) i = Some (Some k) ->
         nth_error (group_keys key) j = Some (Some k) ->
         nth_error ts i = Some (Some ti) ->
         nth_error ts j = Some (Some tj) ->
         (tj <= ti)%Z).
Proof.
  intros H. exists (mask_rows (tail_mask 1 key) df).
  split; [apply last_per_method_runs; exact H | ].
  split; [ | split; [ | split; [ | split]]].
  - intros c s G. exists (mask_series (tail_mask 1 key) s). split.
    + rewrite getitem_mask_rows, G. reflexivity.
    + rewrite values_mask_series. apply compress_take.
  - apply In_tail_rows.
  - unfold tail_mask. rewrite tail_mask_last_seen. apply NoDup_last_seen.
  - intros k. unfold tail_mask.
    rewrite tail_mask_last_seen, In_last_seen. apply In_present.
  - intros ts _ C i j k ti tj I Ki Kj Ti Tj.
    apply In_tail_rows in I. destruct I as (k' & Ki' & L).
    assert (k' = k) by congruence. subst k'.
    apply (chronological_spec ts C j i); auto.
    destruct (Nat.le_gt_cases j i) as [Le | Gt]; [exact Le | ].
    exfalso. apply (L j Gt). exact Kj.
Qed.

(** The specification's example, rows in timestamp order with values 5, 7,
    9: the summary is 9. *)
Lemma last_reduction_keeps_last_row_witness :
  exists final,
    Trabalho11Src.last_per_method Sample.sorted = Ok final /\
    exists s', getitem final "collisions" = Ok s' /\ values s' = [SInt 9].
Proof.
  destruct (last_reduction_keeps_last_row Sample.sorted _ eq_refl)
    as (final & R & Cols & _).
  exists final. split; [exact R | ].
  destruct (Cols "collisions"%string _ eq_refl) as (s' & G & V).
  exists s'. split; [exact G | ]. rewrite V. vm_compute. reflexivity.
Defined.

(** C2 as stated fails when the rows are not in timestamp order: with
    instants 3, 1, 2 and values 9, 5, 7 the summary is 7, the value of the
    last row, while the chronologically last row holds 9. *)
Lemma last_reduction_ignores_timestamps :
  Trabalho11Src.last_per_method Sample.unsorted
  = Ok [("timestamp"%string, Datetime [Some 2%Z]);
        ("method_name"%string, Object [Some "GRID"%string]);
        ("collisions"%string, Int64 [7%Z])] /\
  getitem Sample.unsorted "timestamp" = Ok (Datetime [Some 3; Some 1; Some 2]%Z) /\
  getitem Sample.unsorted "collisions" = Ok (Int64 [9; 5; 7]%Z).
Proof.
  repeat split; vm_compute; reflexivity.
Qed.

(** ** The mean reduction *)

Lemma mean_step_absent acc x : F64.isna x = true -> mean_step acc x = acc.
Proof. intros H. unfold mean_step. rewrite H. reflexivity. Qed.

(** Absent cells leave the state as it is. *)
Lemma fold_mean_step_present v acc :
  fold_left mean_step v acc = fold_left mean_step (filter F64.notna v) acc.
Proof.
  revert acc. induction v as [ | x v IH]; intros acc; simpl; [reflexivity | ].
  unfold F64.notna. destruct (is_nan x) eqn:N; simpl.
  - rewrite mean_step_absent by exact N. apply IH.
  - apply IH.
Qed.

Lemma nanmean_present v : nanmean v = nanmean (filter F64.notna v).
Proof.
  unfold nanmean. rewrite fold_mean_step_present. reflexivity.
Qed.

Lemma filter_absent v : forallb F64.isna v = true -> filter F64.notna v = [].
Proof.
  induction v as [ | x v IH]; simpl; intros H; [reflexivity | ].
  apply andb_prop in H. destruct H as [Hx Hv].
  unfold F64.notna, F64.isna in *. rewrite Hx. simpl. auto.
Qed.

Lemma nanmean_absent v : forallb F64.isna v = true -> nanmean v = nan.
Proof.
  intros H. rewrite nanmean_present, (filter_absent _ H). reflexivity.
Qed.

Section ExactMean.

Local Open Scope Z_scope.

Lemma magnitude_nonneg zs : 0 <= Spec.magnitude zs.
Proof. induction zs as [ | z zs IH]; simpl; lia. Qed.

(** One integer added to an integer sum: the sum stays exact and the
    compensation stays zero. *)
Lemma mean_step_integer n s z :
  Z.abs s < 2 ^ 53 -> Z.abs z < 2 ^ 53 -> Z.abs (s + z) < 2 ^ 53 ->
  mean_step {| nobs := n; sumx := F64.of_int64 s; compensation := 0 |}
            (F64.of_int64 z)
  = {| nobs := S n; sumx := F64.of_int64 (s + z); compensation := 0 |}.
Proof.
  intros Hs Hz Hsz. unfold mean_step.
  rewrite of_int64_present by exact Hz. cbn [nobs sumx compensation].
  change 0%float with (F64.of_int64 0).
  rewrite (sub_of_int64 z 0), Z.sub_0_r by (rewrite ?Z.sub_0_r; simpl; lia).
  rewrite (add_of_int64 s z) by assumption.
  rewrite (sub_of_int64 (s + z) s)
    by (try assumption; replace (s + z - s) with z by lia; exact Hz).
  replace (s + z - s) with z by lia.
  rewrite (sub_of_int64 z z), Z.sub_diag
    by (try assumption; rewrite Z.sub_diag; simpl; lia).
  reflexivity.
Qed.

Lemma fold_mean_step_integers zs n s :
  Z.abs s + Spec.magnitude zs < 2 ^ 53 ->
  fold_left mean_step (map F64.of_int64 zs)
    {| nobs := n; sumx := F64.of_int64 s; compensation := 0 |}
  = {| nobs := n + List.length zs;
       sumx := F64.of_int64 (s + Spec.total zs);
       compensation := 0 |}.
Proof.
  revert n s. induction zs as [ | z zs IH]; intros n s H; simpl in *.
  - rewrite Nat.add_0_r, Z.add_0_r. reflexivity.
  - pose proof (magnitude_nonneg zs) as M.
    rewrite mean_step_integer by lia.
    rewrite IH by lia. f_equal; [lia | f_equal; lia].
Qed.

(** On integers whose absolute values sum to less than 2^53 the mean is
    the exact sum, divided by the count. *)
Lemma nanmean_integers zs :
  zs <> [] -> Spec.magnitude zs < 2 ^ 53 ->
  nanmean (map F64.of_int64 zs) = Spec.mean_of_integers zs.
Proof.
  intros N H. unfold nanmean.
  change 0%float with (F64.of_int64 0).
  rewrite fold_mean_step_integers by (simpl; lia).
  cbn [nobs sumx]. destruct zs as [ | z zs]; [contradiction | ].
  reflexivity.
Qed.

End ExactMean.

Lemma group_label_key cells k :
  In (Some k) (map group_key cells) ->
  In (group_label cells k) cells /\ group_key (group_label cells k) = Some k.
Proof.
  intros I. unfold group_label.
  destruct (find (fun x => has_key k (group_key x)) cells) as [x | ] eqn:F.
  - apply find_some in F. destruct F as [Ix Hx].
    apply has_key_spec in Hx. auto.
  - apply in_map_iff in I. destruct I as (x & E & Ix).
    apply (find_none _ _ F) in Ix. rewrite E in Ix.
    assert (K : has_key k (Some k) = true) by (apply has_key_spec; reflexivity).
    rewrite K in Ix. discriminate.
Qed.

(** C6 (amended).  On a column it can read, the mean reduction runs and
    yields one summary per group, in the groups' order, under the key of
    the group.  Absent values never count: any cells with the same present
    values as the group's rows have the same summary, and the summary is
    absent (NaN) when all the values are absent.  When the present values
    are integers whose absolute values sum to less than 2^53 the summary is
    their arithmetic mean with a single rounding, the exact sum divided by
    the count. *)
Theorem mean_reduction key val v :
  as_float val = Ok v ->
  exists groups,
    groupby_mean key val = Ok groups /\
    List.length groups = List.length (indices key) /\
    forall i k rows,
      nth_error (indices key) i = Some (k, rows) ->
      exists label m,
        nth_error groups i = Some (label, m) /\
        group_key label = Some k /\
        (forall cells,
            filter F64.notna cells = filter F64.notna (take rows v) ->
            nanmean cells = m) /\
        (forallb F64.isna (take rows v) = true -> m = nan) /\
        (forall zs,
            zs <> [] ->
            filter F64.notna (take rows v) = map F64.of_int64 zs ->
            (Spec.magnitude zs < 2 ^ 53)%Z ->
            m = Spec.mean_of_integers zs).
Proof.
  intros H. unfold groupby_mean. rewrite H. simpl.
  eexists. split; [reflexivity | ]. split; [apply length_map | ].
  intros i k rows N. rewrite nth_error_map, N. simpl.
  eexists _, _. split; [reflexivity | ].
  assert (I : In (Some k) (group_keys key)).
  { apply nth_error_In in N. apply In_indices in N. tauto. }
  split; [apply group_label_key, I | ].
  split.
  { intros cells E. rewrite (nanmean_present cells), E, <- nanmean_present.
    reflexivity. }
  split; [apply nanmean_absent | ].
  intros zs Z E M. rewrite nanmean_present, E. apply nanmean_integers; assumption.
Qed.

(** The specification's examples: the values 10, 20, 30 of one group give
    20, the two absent values of the other give an absent summary. *)
Lemma mean_reduction_witness :
  exists groups,
    groupby_mean (Int64 [5; 3; 5; 3; 5]%Z)
                 (Float64 [10; nan; 20; nan; 30]%float) = Ok groups /\
    groups = [(SInt 3, nan); (SInt 5, 20%float)] /\
    Spec.mean_of_integers [10; 20; 30]%Z = 20%float.
Proof.
  destruct (mean_reduction (Int64 [5; 3; 5; 3; 5]%Z)
              (Float64 [10; nan; 20; nan; 30]%float) _ eq_refl)
    as (groups & R & _ & M).
  exists groups. split; [exact R | ].
  destruct (M 1 (SInt 5) [0; 2; 4] eq_refl) as (label & m & N & _ & _ & _ & E).
  specialize (E [10; 20; 30]%Z ltac:(discriminate) eq_refl ltac:(simpl; lia)).
  rewrite E in N. clear E.
  vm_compute in R. inversion R as [G]. clear R. subst groups.
  split; [reflexivity | ].
  cbn [nth_error] in N.
  apply (f_equal (fun o => match o with Some g => snd g | None => nan end))
    in N.
  symmetry. exact N.
Defined.

(** C6 as stated fails where binary64 rounds the running sum: the values
    1e16, 1 and -1e16 are integers that sum to 1, so that their arithmetic
    mean is a third; the summary is 0. *)
Lemma mean_reduction_drops_a_unit :
  groupby_mean (Int64 [7; 7; 7]%Z) (Float64 [1e16; 1; -1e16]%float)
  = Ok [(SInt 7, 0%float)] /\
  [1e16; 1; -1e16]%float
  = map F64.of_int64 [10000000000000000; 1; -10000000000000000]%Z /\
  Spec.total [10000000000000000; 1; -10000000000000000]%Z = 1%Z /\
  Spec.mean_of_integers [10000000000000000; 1; -10000000000000000]%Z
  = (1 / 3)%float /\
  (0 <? 1 / 3)%float = true.
Proof.
  repeat split; vm_compute; reflexivity.
Qed.

(** ** Shared limits *)

Section SharedLimits.

Local Open Scope float_scope.










Lemma series_min_absent v :
  (forall y, In y v -> F64.notna y = false) -> series_min v = nan.
Proof.
  intros H. unfold series_min.
  destruct (filter F64.notna v) as [ | x l] eqn:E; [reflexivity | ].
  assert (I : In x (filter F64.notna v)) by (rewrite E; left; reflexivity).
  apply filter_In in I. destruct I as [I N]. rewrite (H x I) in N.
  discriminate.
Qed.

Lemma series_max_absent v :
  (forall y, In y v -> F64.notna y = false) -> series_max v = nan.
Proof.
  intros H. unfold series_max.
  destruct (filter F64.notna v) as [ | x l] eqn:E; [reflexivity | ].
  assert (I : In x (filter F64.notna v)) by (rewrite E; left; reflexivity).
  apply filter_In in I. destruct I as [I N]. rewrite (H x I) in N.
  discriminate.
Qed.

Lemma fmin_nan_l b : fmin nan b = nan.
Proof. unfold fmin. rewrite ltb_nan_r; reflexivity. Qed.

Lemma fmax_nan_l b : fmax nan b = nan.
Proof. unfold fmax. rewrite ltb_nan_l; reflexivity. Qed.

Lemma fmin_nan_r a : fmin a nan = a.
Proof. unfold fmin. rewrite ltb_nan_l; reflexivity. Qed.

Lemma fmax_nan_r a : fmax a nan = a.
Proof. unfold fmax. rewrite ltb_nan_r; reflexivity. Qed.





End SharedLimits.

(** ** Timestamps *)

Lemma setitem_same df c s : getitem df c = Ok s -> setitem df c s = df.
Proof.
  induction df as [ | [d s0] df IH]; simpl; [discriminate | ].
  destruct (String.eqb_spec d c) as [-> | N]; intros H.
  - inversion H. reflexivity.
  - rewrite IH by exact H. reflexivity.
Qed.

Lemma forallb_parses_false parse cells t :
  In (Some t) cells ->
  parse (Object cells) (SStr t) = None ->
  forallb (parses parse (Object cells)) (values (Object cells)) = false.
Proof.
  intros I P.
  destruct (forallb (parses parse (Object cells)) (values (Object cells)))
    eqn:F; [ | reflexivity].
  rewrite forallb_forall in F.
  specialize (F (SStr t)). simpl in F. rewrite P in F. symmetry. apply F.
  apply in_map_iff. exists (Some t). auto.
Qed.

(** C7 (amended).  In the scripts that convert the column with
    [to_datetime(errors="coerce")], a timestamp text that does not parse
    becomes the invalid-timestamp value NaT in its row, every row and every
    other column is kept, and the conversion never fails.  In the scripts
    that read with [parse_dates], a timestamp text that does not parse
    leaves the whole table as it was read, the column still text: nothing
    fails and no row is marked. *)
Theorem unparsable_timestamps parse :
  (forall df cells,
     getitem df "timestamp" = Ok (Object cells) ->
     exists df' ts,
       Trabalho1.ingest parse df = Ok df' /\
       getitem df' "timestamp" = Ok (Datetime ts) /\
       List.length ts = List.length cells /\
       (forall c, c <> "timestamp"%string -> getitem df' c = getitem df c) /\
       (forall i t, nth_error cells i = Some (Some t) ->
                    parse (Object cells) (SStr t) = None ->
                    nth_error ts i = Some None)) /\
  (forall df cells t,
     getitem df "timestamp" = Ok (Object cells) ->
     In (Some t) cells ->
     parse (Object cells) (SStr t) = None ->
     read_csv_parse_dates parse df "timestamp" = Ok df).
Proof.
  split.
  - intros df cells G.
    exists (setitem df "timestamp" (to_datetime_coerce parse (Object cells))),
      (map (parse_cell parse (Object cells)) (values (Object cells))).
    split; [unfold Trabalho1.ingest; rewrite G; reflexivity | ].
    split; [apply getitem_setitem_same | ].
    split; [simpl; rewrite !length_map; reflexivity | ].
    split; [intros c N; apply getitem_setitem_other; exact N | ].
    intros i t N P. simpl. rewrite !nth_error_map, N. simpl.
    rewrite P. reflexivity.
  - intros df cells t G I P. unfold read_csv_parse_dates. rewrite G.
    unfold parse_dates_column. cbn [as_text].
    rewrite (forallb_parses_false parse cells t I P).
    rewrite (setitem_same _ _ _ G). reflexivity.
Qed.

(** On a log whose second timestamp is corrupted the conversion of
    [Trabalho-1] marks that row and keeps it. *)
Example corrupted_row_is_marked :
  Trabalho1.ingest Sample.iso_date Sample.log
  = Ok [("timestamp"%string, Datetime [Some 1704067200000000000%Z; None]);
        ("clicks_on_dots"%string, Int64 [1; 2]%Z)].
Proof.
  vm_compute. reflexivity.
Qed.

(** C7 as stated fails in the scripts that read with [parse_dates]: on the
    same log the corrupted row keeps its text, and so does every other
    row; no invalid-timestamp value is stored. *)
Lemma corrupted_row_keeps_text :
  Sample.iso_date (Object [Some "2024-01-01"; Some "garbage"]%string)
                  (SStr "garbage") = None /\
  read_csv_parse_dates Sample.iso_date Sample.log "timestamp" = Ok Sample.log /\
  getitem Sample.log "timestamp"
  = Ok (Object [Some "2024-01-01"; Some "garbage"]%string) /\
  iat (Object [Some "2024-01-01"; Some "garbage"]%string) 1
  = Some (SStr "garbage").
Proof.
  repeat split; vm_compute; reflexivity.
Qed.

(** ** The series of [trabalho-5] *)

Lemma ingest_keeps parse df df' c :
  Trabalho1.ingest parse df = Ok df' ->
  c <> "timestamp"%string -> getitem df' c = getitem df c.
Proof.
  unfold Trabalho1.ingest. intros H N.
  apply bind_ok in H as (ts & _ & H). inversion H; subst.
  apply getitem_setitem_other. exact N.
Qed.

(** The two series the script draws are the mean reductions of the cost
    column, grouped by start-point count and by obstacle count. *)
Lemma drawn_series_are_group_means parse df a0 a1 :
  Trabalho5.main parse df = Ok (a0, a1) ->
  exists start_points obstacles_amount cost start_group obstacle_group,
    getitem df "start_points" = Ok start_points /\
    getitem df "obstacles_amount" = Ok obstacles_amount /\
    getitem df "time_to_finish_in_micros" = Ok cost /\
    groupby_mean start_points cost = Ok start_group /\
    groupby_mean obstacles_amount cost = Ok obstacle_group /\
    Trabalho5.line_x a0 = map fst start_group /\
    Trabalho5.line_y a0 = map snd start_group /\
    Trabalho5.line_x a1 = map fst obstacle_group /\
    Trabalho5.line_y a1 = map snd obstacle_group.
Proof.
  unfold Trabalho5.main. intros H.
  apply bind_ok in H as (df1 & I & H).
  apply bind_ok in H as (sp & Gs & H).
  apply bind_ok in H as (cost & Gc & H).
  apply bind_ok in H as (g0 & M0 & H).
  apply bind_ok in H as (oa & Go & H).
  apply bind_ok in H as (g1 & M1 & H).
  inversion H; subst; clear H. simpl.
  rewrite (ingest_keeps _ _ _ _ I) in Gs by discriminate.
  rewrite (ingest_keeps _ _ _ _ I) in Gc by discriminate.
  rewrite (ingest_keeps _ _ _ _ I) in Go by discriminate.
  exists sp, oa, cost, g0, g1. repeat split; assumption.
Qed.

(** * Further properties of the scripts *)

(** ** Columns *)

(** ** The extra-steps derivation: errors *)

(** X8.  Lines 14 and 15 stop with [KeyError] on the first source column
    the table lacks: the step count when it is missing, the path length
    when only that is. *)
Theorem extra_steps_errors df :
  (~ In "how_many_steps_agents_made"%string (columns df) ->
   Trabalho11.extra_steps df
   = Raise (KeyError "how_many_steps_agents_made")) /\
  (In "how_many_steps_agents_made"%string (columns df) ->
   ~ In "total_agents_path_length"%string (columns df) ->
   Trabalho11.extra_steps df
   = Raise (KeyError "total_agents_path_length")).
Proof.
  unfold Trabalho11.extra_steps. split.
  - intros N. rewrite (getitem_missing _ _ N). reflexivity.
  - intros I N. destruct (getitem_present _ _ I) as [s G].
    rewrite G. simpl. rewrite (getitem_missing _ _ N). reflexivity.
Qed.

(** ** The extra-steps derivation: running it again *)

(** X9.  Lines 14 and 15 read only the two source columns, so running them
    on their own result gives this result again. *)
Theorem extra_steps_idempotent df df' :
  Trabalho11.extra_steps df = Ok df' ->
  Trabalho11.extra_steps df' = Ok df'.
Proof.
  intros H. assert (H' := H). unfold Trabalho11.extra_steps in H.
  apply bind_ok in H as (made & Gm & H).
  apply bind_ok in H as (planned & Gp & H).
  apply bind_ok in H as (diff & D & H).
  apply bind_ok in H as (diff' & Gd & H).
  apply bind_ok in H as (clipped & C & H).
  rewrite getitem_setitem_same in Gd.
  inversion Gd; subst diff'. inversion H; subst df'. clear Gd H.
  rewrite setitem_twice in *.
  unfold Trabalho11.extra_steps.
  rewrite !getitem_setitem_other by discriminate.
  rewrite Gm, Gp. simpl. rewrite D. simpl.
  rewrite getitem_setitem_same. simpl. rewrite C. simpl.
  rewrite !setitem_twice. reflexivity.
Qed.

Lemma extra_steps_idempotent_witness :
  exists df',
    Trabalho11.extra_steps Sample.steps = Ok df' /\
    Trabalho11.extra_steps df' = Ok df'.
Proof.
  destruct (Trabalho11.extra_steps Sample.steps) as [df' | e] eqn:R;
    [ | vm_compute in R; discriminate].
  exists df'. split; [reflexivity | ].
  apply (extra_steps_idempotent _ _ R).
Defined.

(** ** The extra-steps derivation: missing cells *)

Lemma sub_nan x y :
  (F64.isna x || F64.isna y)%bool = true -> F64.isna (x - y) = true.
Proof.
  unfold F64.isna. intros H. apply is_nan_spec. rewrite sub_spec.
  apply orb_prop in H. destruct H as [H | H]; apply is_nan_spec in H;
    rewrite H; [reflexivity | ].
  destruct (Prim2SF x) as [[] | [] | | [] m e]; reflexivity.
Qed.

(** X10.  When a column is float64, a row whose step count or path length
    is missing (NaN) gets a missing extra-steps cell: the clip keeps NaN
    and does not turn it into zero. *)
Theorem extra_steps_missing df made planned a b :
  getitem df "how_many_steps_agents_made" = Ok made ->
  getitem df "total_agents_path_length" = Ok planned ->
  Spec.both_int64 made planned = false ->
  as_float made = Ok a -> as_float planned = Ok b ->
  exists df' e,
    Trabalho11.extra_steps df = Ok df' /\
    getitem df' "extra_steps" = Ok e /\
    forall i x y,
      nth_error a i = Some x -> nth_error b i = Some y ->
      (F64.isna x || F64.isna y)%bool = true ->
      iat e i = Some NA.
Proof.
  intros Gm Gp B Ha Hb.
  assert (S : sub made planned = Ok (Float64 (zip_with PrimFloat.sub a b))).
  { rewrite (sub_as_float _ _ B), Ha, Hb. reflexivity. }
  exists (setitem df "extra_steps"
            (Float64 (map (clip_lower_float (F64.of_int64 0))
                          (zip_with PrimFloat.sub a b)))),
    (Float64 (map (clip_lower_float (F64.of_int64 0))
                  (zip_with PrimFloat.sub a b))).
  split; [ | split].
  - apply (extra_steps_runs df made planned _ _ Gm Gp S). reflexivity.
  - apply getitem_setitem_same.
  - intros i x y Hx Hy N. unfold iat. simpl.
    rewrite !nth_error_map, (nth_error_zip_with PrimFloat.sub Hx Hy). simpl.
    apply sub_nan in N. unfold clip_lower_float, float_cell.
    rewrite N. simpl. rewrite N. reflexivity.
Qed.

Lemma extra_steps_missing_witness :
  exists df' e,
    Trabalho11.extra_steps Sample.ticks = Ok df' /\
    getitem df' "extra_steps" = Ok e /\
    iat e 0 = Some (SFloat 3) /\ iat e 1 = Some NA.
Proof.
  destruct (extra_steps_missing Sample.ticks _ _ _ _
              eq_refl eq_refl eq_refl eq_refl eq_refl)
    as (df' & e & R & G & M).
  exists df', e. split; [exact R | ]. split; [exact G | ]. split.
  - vm_compute in R. inversion R; subst; clear R.
    vm_compute in G. inversion G; subst; clear G.
    vm_compute. reflexivity.
  - apply (M 1 nan (F64.of_int64 9) eq_refl eq_refl eq_refl).
Defined.

(** ** Sorting and the derivation *)

Lemma nth_error_zip_with_full {A B C : Type} (f : A -> B -> C) l m i :
  nth_error (zip_with f l m) i
  = match nth_error l i, nth_error m i with
    | Some x, Some y => Some (f x y)
    | _, _ => None
    end.
Proof.
  revert m i. induction l as [ | a l IH]; intros [ | b m] [ | i]; simpl;
    try reflexivity.
  - destruct (nth_error l i); reflexivity.
  - apply IH.
Qed.

Lemma take_cons {A : Type} i idx (l : list A) :
  take (i :: idx) l
  = match nth_error l i with Some x => [x] | None => [] end ++ take idx l.
Proof. reflexivity. Qed.

Lemma take_map {A B : Type} (f : A -> B) idx l :
  take idx (map f l) = map f (take idx l).
Proof.
  induction idx as [ | i idx IH]; [reflexivity | ].
  rewrite !take_cons, map_app, IH, nth_error_map.
  destruct (nth_error l i); reflexivity.
Qed.

Lemma take_zip_with {A B C : Type} (f : A -> B -> C) idx l m :
  List.length l = List.length m ->
  take idx (zip_with f l m) = zip_with f (take idx l) (take idx m).
Proof.
  intros E. induction idx as [ | i idx IH]; [reflexivity | ].
  rewrite !take_cons, IH, nth_error_zip_with_full.
  destruct (nth_error l i) as [x | ] eqn:Hl,
           (nth_error m i) as [y | ] eqn:Hm; simpl; try reflexivity.
  - apply nth_error_None in Hm.
    assert (i < List.length l) by (apply nth_error_Some; congruence). lia.
  - apply nth_error_None in Hl.
    assert (i < List.length m) by (apply nth_error_Some; congruence). lia.
Qed.

Lemma length_take_same {A B : Type} idx (l : list A) (m : list B) :
  List.length l = List.length m ->
  List.length (take idx l) = List.length (take idx m).
Proof.
  intros E. induction idx as [ | i idx IH]; [reflexivity | ].
  rewrite !take_cons, !length_app, IH. f_equal.
  destruct (nth_error l i) eqn:Hl, (nth_error m i) eqn:Hm; try reflexivity.
  - apply nth_error_None in Hm.
    assert (i < List.length l) by (apply nth_error_Some; congruence). lia.
  - apply nth_error_None in Hl.
    assert (i < List.length m) by (apply nth_error_Some; congruence). lia.
Qed.

Lemma getitem_take_rows idx df c :
  getitem (take_rows idx df) c
  = s <- getitem df c ;; Ok (take_series idx s).
Proof.
  induction df as [ | [d s] df IH]; simpl; auto.
  destruct (String.eqb d c); auto.
Qed.

Lemma take_rows_setitem idx df c s :
  take_rows idx (setitem df c s)
  = setitem (take_rows idx df) c (take_series idx s).
Proof.
  induction df as [ | [d s0] df IH]; simpl; [reflexivity | ].
  destruct (String.eqb d c); simpl; [reflexivity | ].
  rewrite IH. reflexivity.
Qed.

Lemma In_take {A : Type} idx (l : list A) x :
  In x (take idx l) <-> exists i, In i idx /\ nth_error l i = Some x.
Proof.
  unfold take. rewrite in_flat_map. split; intros (i & I & H); exists i;
    (split; [exact I | ]).
  - destruct (nth_error l i) as [y | ]; simpl in H; [ | destruct H].
    destruct H as [-> | []]. reflexivity.
  - rewrite H. left. reflexivity.
Qed.

(** A selection that leaves no position out holds a cell failing a test
    exactly when the list does. *)
Lemma forallb_take {A : Type} (p : A -> bool) idx l :
  (forall i, i < List.length l -> In i idx) ->
  forallb p (take idx l) = forallb p l.
Proof.
  intros C. apply Bool.eq_iff_eq_true. rewrite !forallb_forall. split.
  - intros H x I. apply H, In_take.
    apply In_nth_error in I. destruct I as [i I]. exists i.
    split; [ | exact I]. apply C, nth_error_Some. congruence.
  - intros H x I. apply In_take in I. destruct I as (i & _ & I).
    apply H. eapply nth_error_In, I.
Qed.

Lemma as_float_take idx s :
  (forall i, i < size s -> In i idx) ->
  as_float (take_series idx s) = v <- as_float s ;; Ok (take idx v).
Proof.
  intros C. destruct s as [x | x | x | x]; simpl; try reflexivity.
  - rewrite take_map. reflexivity.
  - unfold size in C. simpl in C. rewrite length_map in C.
    rewrite (forallb_take _ _ _ C).
    destruct (forallb is_missing x); simpl; [ | reflexivity].
    rewrite take_map. reflexivity.
Qed.

Lemma sub_take idx a b n :
  size a = n -> size b = n -> (forall i, i < n -> In i idx) ->
  sub (take_series idx a) (take_series idx b)
  = r <- sub a b ;; Ok (take_series idx r).
Proof.
  intros Ea Eb C. destruct (Spec.both_int64 a b) eqn:B.
  - destruct a as [x | x | x | x], b as [y | y | y | y]; try discriminate.
    simpl. rewrite take_zip_with; [reflexivity | ].
    unfold size in Ea, Eb. simpl in Ea, Eb. rewrite !length_map in Ea, Eb.
    congruence.
  - rewrite !sub_as_float
      by (destruct a, b; try discriminate; reflexivity).
    rewrite !as_float_take by (intros i I; apply C; congruence).
    destruct (as_float a) as [x | e] eqn:Hx; simpl; [ | reflexivity].
    destruct (as_float b) as [y | e] eqn:Hy; simpl; [ | reflexivity].
    rewrite take_zip_with; [reflexivity | ].
    rewrite (size_as_float _ _ Hx), (size_as_float _ _ Hy). congruence.
Qed.

Lemma clip_lower_take idx s lo :
  (forall i, i < size s -> In i idx) ->
  clip_lower (take_series idx s) lo
  = r <- clip_lower s lo ;; Ok (take_series idx r).
Proof.
  intros C. destruct s as [x | x | x | x]; simpl; try reflexivity;
    try (rewrite take_map; reflexivity).
  unfold size in C. simpl in C. rewrite length_map in C.
  rewrite (forallb_take _ _ _ C).
  destruct (forallb is_missing x); reflexivity.
Qed.

(** Taking every row by position, in any order and with repeats, commutes
    with the derivation of lines 14 and 15. *)
Lemma extra_steps_take_rows idx df n :
  nrows df n ->
  (forall i, i < n -> In i idx) ->
  Trabalho11.extra_steps (take_rows idx df)
  = r <- Trabalho11.extra_steps df ;; Ok (take_rows idx r).
Proof.
  intros W C. unfold Trabalho11.extra_steps.
  rewrite !getitem_take_rows.
  destruct (getitem df "how_many_steps_agents_made") as [made | e] eqn:Gm;
    simpl; [ | reflexivity].
  destruct (getitem df "total_agents_path_length") as [planned | e] eqn:Gp;
    simpl; [ | reflexivity].
  rewrite (sub_take idx made planned n
             (nrows_getitem _ _ _ _ W Gm) (nrows_getitem _ _ _ _ W Gp) C).
  destruct (sub made planned) as [diff | e] eqn:D; simpl; [ | reflexivity].
  rewrite !getitem_setitem_same. simpl.
  rewrite clip_lower_take
    by (intros i I; apply C;
        rewrite <- (size_sub _ _ _ _ D (nrows_getitem _ _ _ _ W Gm)
                      (nrows_getitem _ _ _ _ W Gp)); exact I).
  destruct (clip_lower diff 0) as [clipped | e]; simpl; [ | reflexivity].
  rewrite !setitem_twice, take_rows_setitem. reflexivity.
Qed.

Lemma order_covers argsort s i : i < size s -> In i (order argsort s).
Proof.
  intros H. unfold order, is_order.
  destruct (Nat.eqb _ _ && forallb _ _)%bool eqn:E.
  - apply andb_prop in E. destruct E as [_ E].
    rewrite forallb_forall in E.
    specialize (E i ltac:(apply in_seq; lia)).
    apply existsb_exists in E. destruct E as (j & I & E).
    apply Nat.eqb_eq in E. subst. exact I.
  - apply in_seq. lia.
Qed.

(** X12.  On a table whose columns have one length, sorting by timestamp
    (line 11) and deriving the extra steps (lines 14 and 15) commute:
    the script's frame is the derived frame of the unsorted table, sorted
    by the same permutation.  The sort is there "just in case": it moves
    the derived cells with their rows and changes none of them. *)
Theorem sort_then_derive argsort df n sorted :
  nrows df n ->
  sort_values argsort df "timestamp" = Ok sorted ->
  Trabalho11.extra_steps sorted
  = r <- Trabalho11.extra_steps df ;; sort_values argsort r "timestamp".
Proof.
  intros W S. unfold sort_values in S.
  apply bind_ok in S as (ts & Gt & S). inversion S; subst; clear S.
  assert (C : forall i, i < n -> In i (order argsort ts)).
  { intros i I. apply order_covers.
    rewrite (nrows_getitem _ _ _ _ W Gt). exact I. }
  rewrite (extra_steps_take_rows _ _ _ W C).
  destruct (Trabalho11.extra_steps df) as [r | e] eqn:R; simpl;
    [ | reflexivity].
  unfold sort_values.
  assert (K : getitem r "timestamp" = getitem df "timestamp").
  { unfold Trabalho11.extra_steps in R.
    apply bind_ok in R as (made & _ & R).
    apply bind_ok in R as (planned & _ & R).
    apply bind_ok in R as (diff & _ & R).
    apply bind_ok in R as (diff' & _ & R).
    apply bind_ok in R as (clipped & _ & R).
    inversion R; subst.
    rewrite !getitem_setitem_other by discriminate. reflexivity. }
  rewrite K, Gt. reflexivity.
Qed.

Lemma sort_then_derive_witness :
  exists sorted,
    sort_values Sample.swap Sample.ticks "timestamp" = Ok sorted /\
    Trabalho11.extra_steps sorted
    = r <- Trabalho11.extra_steps Sample.ticks ;;
      sort_values Sample.swap r "timestamp".
Proof.
  assert (W : nrows Sample.ticks 2) by (repeat constructor).
  destruct (sort_values Sample.swap Sample.ticks "timestamp")
    as [sorted | e] eqn:S; [ | vm_compute in S; discriminate].
  exists sorted. split; [reflexivity | ].
  apply (sort_then_derive Sample.swap Sample.ticks 2 sorted W S).
Defined.

(** ** The final results: when the script runs *)

Lemma is_numeric_mask_series mask s :
  Spec.is_numeric (mask_series mask s) = Spec.is_numeric s.
Proof. destruct s; reflexivity. Qed.

Lemma as_float_numeric s :
  Spec.is_numeric s = true -> exists v, as_float s = Ok v.
Proof.
  destruct s; simpl; intros H; try discriminate; eauto.
Qed.

Lemma bar_runs final x h a b :
  getitem final x = Ok a -> getitem final h = Ok b ->
  Trabalho11Src.bar final x h = Ok {| Trabalho11Src.bar_x := a;
                                      Trabalho11Src.bar_height := b |}.
Proof.
  intros Ha Hb. unfold Trabalho11Src.bar. rewrite Ha, Hb. reflexivity.
Qed.

Lemma read_csv_parse_dates_runs parse df c s :
  getitem df c = Ok s ->
  read_csv_parse_dates parse df c
  = Ok (setitem df c (parse_dates_column parse s)).
Proof.
  intros H. unfold read_csv_parse_dates. rewrite H. reflexivity.
Qed.

(** X1.  Every step of the script up to the plotting calls succeeds on
    every table that has a timestamp column and the seven columns it
    prints, the planned length and the distance being numeric: no row, and
    no lack of rows, makes it fail. *)
Theorem final_results_run parse df :
  In "timestamp"%string (columns df) ->
  (forall c, In c Trabalho11Src.report -> In c (columns df)) ->
  (forall s, getitem df "total_path_length" = Ok s ->
             Spec.is_numeric s = true) ->
  (forall s, getitem df "actual_distance" = Ok s ->
             Spec.is_numeric s = true) ->
  exists out, Trabalho11Src.main parse df = Ok out.
Proof.
  intros It Ir Np Na.
  destruct (getitem_present _ _ It) as [ts Gt].
  set (df1 := setitem df "timestamp" (parse_dates_column parse ts)).
  assert (K1 : forall c, In c Trabalho11Src.report ->
                         getitem df1 c = getitem df c).
  { intros c I. apply getitem_setitem_other.
    simpl in I. intuition (subst; discriminate). }
  assert (G1 : forall c, In c Trabalho11Src.report ->
                         exists s, getitem df1 c = Ok s).
  { intros c I. rewrite (K1 c I). apply getitem_present, Ir, I. }
  destruct (G1 "method_name"%string) as [m Gm]; [simpl; auto | ].
  set (m1 := isin m Trabalho11Src.methods).
  set (m2 := tail_mask 1 (mask_series m1 m)).
  set (fin := mask_rows m2 (mask_rows m1 df1)).
  assert (GF : forall c s, getitem df1 c = Ok s ->
                 getitem fin c = Ok (mask_series m2 (mask_series m1 s))).
  { intros c s G. apply getitem_mask_rows_ok, getitem_mask_rows_ok, G. }
  pose proof (select_columns_runs fin Trabalho11Src.report) as P.
  set (pr := reindex fin Trabalho11Src.report) in P.
  lapply P; [clear P; intros P | ].
  2:{ intros c I. destruct (G1 c I) as [s G]. rewrite (GF _ _ G). eauto. }
  destruct (G1 "collisions"%string) as [c1 Gc1]; [simpl; auto | ].
  destruct (G1 "total_steps"%string) as [c2 Gc2]; [simpl; auto 6 | ].
  destruct (G1 "total_path_length"%string) as [pl Gpl]; [simpl; auto 6 | ].
  destruct (G1 "actual_distance"%string) as [ad Gad]; [simpl; auto 7 | ].
  assert (Npl : Spec.is_numeric pl = true).
  { apply Np. rewrite <- K1 by (simpl; auto 6). exact Gpl. }
  assert (Nad : Spec.is_numeric ad = true).
  { apply Na. rewrite <- K1 by (simpl; auto 7). exact Gad. }
  destruct (as_float_numeric (mask_series m2 (mask_series m1 pl))) as [vp Vp];
    [rewrite !is_numeric_mask_series; exact Npl | ].
  destruct (as_float_numeric (mask_series m2 (mask_series m1 ad))) as [va Va];
    [rewrite !is_numeric_mask_series; exact Nad | ].
  set (fin' := setitem fin "path_efficiency"
                 (Float64 (zip_with PrimFloat.div vp va))).
  assert (Gm' : getitem fin' "method_name"
                = Ok (mask_series m2 (mask_series m1 m))).
  { unfold fin'. rewrite getitem_setitem_other by discriminate.
    apply GF, Gm. }
  assert (Gad' : getitem fin' "actual_distance"
                 = Ok (mask_series m2 (mask_series m1 ad))).
  { unfold fin'. rewrite getitem_setitem_other by discriminate.
    apply GF, Gad. }
  assert (Gpe : getitem fin' "path_efficiency"
                = Ok (Float64 (zip_with PrimFloat.div vp va)))
    by apply getitem_setitem_same.
  eexists. unfold Trabalho11Src.main.
  rewrite (read_csv_parse_dates_runs _ _ _ _ Gt). cbn [bind]. fold df1.
  unfold Trabalho11Src.select_methods. rewrite Gm. cbn [bind]. fold m1.
  unfold Trabalho11Src.last_per_method, groupby_tail.
  rewrite (getitem_mask_rows_ok m1 _ _ _ Gm). cbn [bind]. fold m2. fold fin.
  rewrite P. cbn [bind].
  rewrite (bar_runs _ _ _ _ _ (GF _ _ Gm) (GF _ _ Gc1)). cbn [bind].
  rewrite (bar_runs _ _ _ _ _ (GF _ _ Gm) (GF _ _ Gc2)). cbn [bind].
  unfold Trabalho11Src.path_efficiency, truediv.
  rewrite (GF _ _ Gpl), (GF _ _ Gad). cbn [bind]. rewrite Vp, Va. cbn [bind].
  fold fin'.
  rewrite (bar_runs _ _ _ _ _ Gm' Gpe). cbn [bind].
  rewrite (bar_runs _ _ _ _ _ Gm' Gad'). cbn [bind].
  reflexivity.
Qed.

Lemma final_results_run_witness :
  exists out, Trabalho11Src.main Sample.iso_date Sample.runs = Ok out.
Proof.
  apply final_results_run.
  - simpl. auto.
  - intros c I. simpl in I. simpl. intuition.
  - intros s G. vm_compute in G. inversion G. reflexivity.
  - intros s G. vm_compute in G. inversion G. reflexivity.
Defined.

(** ** The final results: when the script stops *)

(** X2.  Without a timestamp column the read of line 6 stops the script
    with [ValueError]; with one but without a method column line 8 stops
    it with [KeyError]. *)
Theorem final_results_errors parse df :
  (~ In "timestamp"%string (columns df) ->
   Trabalho11Src.main parse df = Raise ValueError) /\
  (In "timestamp"%string (columns df) ->
   ~ In "method_name"%string (columns df) ->
   Trabalho11Src.main parse df = Raise (KeyError "method_name")).
Proof.
  unfold Trabalho11Src.main. split.
  - intros N. unfold read_csv_parse_dates.
    rewrite (getitem_missing _ _ N). reflexivity.
  - intros I N. destruct (getitem_present _ _ I) as [ts Gt].
    rewrite (read_csv_parse_dates_runs _ _ _ _ Gt). cbn [bind].
    unfold Trabalho11Src.select_methods.
    rewrite getitem_setitem_other by discriminate.
    rewrite (getitem_missing _ _ N). reflexivity.
Qed.

(** ** The final results: one bar per method *)

Lemma group_keys_labels labels l :
  map group_key (filter (has_label labels) l)
  = map Some (filter (has_label labels) l).
Proof.
  induction l as [ | x l IH]; simpl; [reflexivity | ].
  destruct (has_label labels x) eqn:H; [ | exact IH].
  simpl. rewrite IH. destruct x; try discriminate. reflexivity.
Qed.

Lemma present_map_Some {A : Type} (l : list A) : present (map Some l) = l.
Proof.
  induction l as [ | x l IH]; simpl; congruence.
Qed.

Lemma present_compress_Some {A : Type} mask (l : list A) :
  present (compress mask (map Some l)) = compress mask l.
Proof.
  rewrite compress_map. apply present_map_Some.
Qed.

(** The labels of the last rows of the kept rows: the distinct kept
    labels, in the order of their last rows. *)
Lemma last_rows_labels m :
  values (mask_series
            (tail_mask 1 (mask_series (isin m Trabalho11Src.methods) m))
            (mask_series (isin m Trabalho11Src.methods) m))
  = Spec.last_seen (filter (has_label Trabalho11Src.methods) (values m)).
Proof.
  set (kept := mask_series (isin m Trabalho11Src.methods) m).
  assert (V : values kept
              = filter (has_label Trabalho11Src.methods) (values m))
    by apply isin_filters.
  assert (K : group_keys kept = map Some (values kept)).
  { unfold group_keys. rewrite V. apply group_keys_labels. }
  rewrite values_mask_series.
  rewrite <- (present_compress_Some (tail_mask 1 kept) (values kept)).
  rewrite <- K. unfold tail_mask. rewrite tail_mask_last_seen.
  rewrite K, present_map_Some, V. reflexivity.
Qed.

Lemma charts_labels parse df out m :
  Trabalho11Src.main parse df = Ok out ->
  getitem df "method_name" = Ok m ->
  forall b, In b (Trabalho11Src.charts out) ->
    values (Trabalho11Src.bar_x b)
    = Spec.last_seen (filter (has_label Trabalho11Src.methods) (values m)).
Proof.
  unfold Trabalho11Src.main. intros H Gm.
  apply bind_ok in H as (df1 & R & H).
  apply bind_ok in H as (df2 & S & H).
  apply bind_ok in H as (fin & L & H).
  apply bind_ok in H as (pr & P & H).
  apply bind_ok in H as (c1 & B1 & H).
  apply bind_ok in H as (c2 & B2 & H).
  apply bind_ok in H as (fin' & PE & H).
  apply bind_ok in H as (c3 & B3 & H).
  apply bind_ok in H as (c4 & B4 & H).
  inversion H; subst; clear H. simpl.
  assert (G1 : getitem df1 "method_name" = Ok m).
  { rewrite (read_csv_parse_dates_keeps _ _ _ _ _ R) by discriminate.
    exact Gm. }
  unfold Trabalho11Src.select_methods in S. rewrite G1 in S.
  inversion S; subst; clear S.
  unfold Trabalho11Src.last_per_method, groupby_tail in L.
  rewrite (getitem_mask_rows_ok _ _ _ _ G1) in L.
  inversion L; subst; clear L.
  assert (GF : getitem
                 (mask_rows
                    (tail_mask 1
                       (mask_series (isin m Trabalho11Src.methods) m))
                    (mask_rows (isin m Trabalho11Src.methods) df1))
                 "method_name"
               = Ok (mask_series
                       (tail_mask 1
                          (mask_series (isin m Trabalho11Src.methods) m))
                       (mask_series (isin m Trabalho11Src.methods) m))).
  { apply getitem_mask_rows_ok, getitem_mask_rows_ok, G1. }
  assert (GF' : getitem fin' "method_name"
                = Ok (mask_series
                        (tail_mask 1
                           (mask_series (isin m Trabalho11Src.methods) m))
                        (mask_series (isin m Trabalho11Src.methods) m))).
  { rewrite (path_efficiency_keeps _ _ _ PE) by discriminate. exact GF. }
  intros b [<- | [<- | [<- | [<- | []]]]].
  - apply bar_x_column in B1. rewrite GF in B1. inversion B1.
    apply last_rows_labels.
  - apply bar_x_column in B2. rewrite GF in B2. inversion B2.
    apply last_rows_labels.
  - apply bar_x_column in B3. rewrite GF' in B3. inversion B3.
    apply last_rows_labels.
  - apply bar_x_column in B4. rewrite GF' in B4. inversion B4.
    apply last_rows_labels.
Qed.

Lemma has_label_spec labels x :
  has_label labels x = true <-> In x (map SStr labels).
Proof.
  split.
  - destruct x; simpl; try discriminate. intros H.
    apply existsb_exists in H. destruct H as (t & I & E).
    apply String.eqb_eq in E. subst. apply in_map. exact I.
  - intros I. apply in_map_iff in I. destruct I as (t & <- & I). simpl.
    apply existsb_exists. exists t. split; [exact I | apply String.eqb_refl].
Qed.

(** X3.  Every chart has one bar per method: no label stands twice on its
    x axis, so there are at most three bars; and the labels are exactly
    those of GRID, PATH and ORCA that occur in the log, so a method that
    logged at least one row is never left out. *)
Theorem one_bar_per_method parse df out m :
  Trabalho11Src.main parse df = Ok out ->
  getitem df "method_name" = Ok m ->
  forall b, In b (Trabalho11Src.charts out) ->
    NoDup (values (Trabalho11Src.bar_x b)) /\
    size (Trabalho11Src.bar_x b) <= 3 /\
    forall x, In x (values (Trabalho11Src.bar_x b)) <->
              In x (values m) /\ In x (map SStr Trabalho11Src.methods).
Proof.
  intros H Gm b I. rewrite (charts_labels _ _ _ _ H Gm b I).
  assert (M : forall x,
             In x (Spec.last_seen
                     (filter (has_label Trabalho11Src.methods) (values m)))
             <-> In x (values m) /\ In x (map SStr Trabalho11Src.methods)).
  { intros x. rewrite In_last_seen, filter_In, has_label_spec. tauto. }
  split; [apply NoDup_last_seen | ]. split; [ | exact M].
  unfold size. rewrite (charts_labels _ _ _ _ H Gm b I).
  apply (NoDup_incl_length (l' := map SStr Trabalho11Src.methods)).
  - apply NoDup_last_seen.
  - intros x Ix. apply M in Ix. tauto.
Qed.

Lemma one_bar_per_method_witness :
  exists out,
    Trabalho11Src.main Sample.iso_date Sample.runs = Ok out /\
    forall b, In b (Trabalho11Src.charts out) ->
      NoDup (values (Trabalho11Src.bar_x b)) /\
      size (Trabalho11Src.bar_x b) <= 3.
Proof.
  destruct (Trabalho11Src.main Sample.iso_date Sample.runs) as [out | e]
    eqn:R; [ | vm_compute in R; discriminate].
  exists out. split; [reflexivity | ].
  intros b I.
  destruct (one_bar_per_method _ _ _ _ R eq_refl b I) as (N & L & _).
  split; assumption.
Defined.

(** ** The final results: ratio and row selection *)

Lemma zip_with_nil_r {A B C : Type} (f : A -> B -> C) l : zip_with f l [] = [].
Proof. destruct l; reflexivity. Qed.

Lemma compress_zip_with {A B C : Type} (f : A -> B -> C) mask l m :
  compress mask (zip_with f l m)
  = zip_with f (compress mask l) (compress mask m).
Proof.
  revert l m. induction mask as [ | b mask IH]; intros l m.
  - destruct l, m; reflexivity.
  - destruct l as [ | x l], m as [ | y m]; simpl; try reflexivity.
    + rewrite zip_with_nil_r. reflexivity.
    + destruct b; simpl; rewrite IH; reflexivity.
Qed.

Lemma mask_rows_setitem mask df c s :
  mask_rows mask (setitem df c s)
  = setitem (mask_rows mask df) c (mask_series mask s).
Proof.
  induction df as [ | [d s0] df IH]; simpl; [reflexivity | ].
  destruct (String.eqb d c); simpl; [reflexivity | ].
  rewrite IH. reflexivity.
Qed.

Lemma forallb_compress {A : Type} (p : A -> bool) mask l :
  forallb p l = true -> forallb p (compress mask l) = true.
Proof.
  rewrite !forallb_forall. intros H x I. apply H.
  eapply In_compress, I.
Qed.

Lemma as_float_mask_series mask s v :
  as_float s = Ok v -> as_float (mask_series mask s) = Ok (compress mask v).
Proof.
  destruct s as [x | x | x | x]; simpl; intros H.
  - inversion H. rewrite compress_map. reflexivity.
  - inversion H. reflexivity.
  - destruct (forallb is_missing x) eqn:F; inversion H.
    rewrite (forallb_compress _ _ _ F), compress_map. reflexivity.
  - discriminate.
Qed.

(** X4.  The ratio of lines 51 to 53 is computed row by row, so it commutes
    with the row selections of lines 8 and 10: where it runs on a table,
    it runs on any selection of the table's rows, and gives the selection
    of the table's ratios. *)
Theorem path_efficiency_of_selection mask df r :
  Trabalho11Src.path_efficiency df = Ok r ->
  Trabalho11Src.path_efficiency (mask_rows mask df) = Ok (mask_rows mask r).
Proof.
  unfold Trabalho11Src.path_efficiency, truediv. intros H.
  apply bind_ok in H as (planned & Gp & H).
  apply bind_ok in H as (actual & Ga & H).
  apply bind_ok in H as (ratio & T & H).
  apply bind_ok in T as (p & Hp & T).
  apply bind_ok in T as (a & Ha & T).
  inversion T; subst; clear T. inversion H; subst; clear H.
  rewrite (getitem_mask_rows_ok _ _ _ _ Gp), (getitem_mask_rows_ok _ _ _ _ Ga).
  cbn [bind].
  rewrite (as_float_mask_series _ _ _ Hp), (as_float_mask_series _ _ _ Ha).
  cbn [bind].
  rewrite mask_rows_setitem. simpl.
  rewrite compress_zip_with. reflexivity.
Qed.

Lemma path_efficiency_of_selection_witness :
  exists r,
    Trabalho11Src.path_efficiency Sample.runs = Ok r /\
    Trabalho11Src.path_efficiency
      (mask_rows [true; false; true; false] Sample.runs)
    = Ok (mask_rows [true; false; true; false] r).
Proof.
  destruct (Trabalho11Src.path_efficiency Sample.runs) as [r | e] eqn:R;
    [ | vm_compute in R; discriminate].
  exists r. split; [reflexivity | ].
  apply (path_efficiency_of_selection _ _ _ R).
Defined.

(** ** The final results: a rectangular table *)

Lemma length_compress_same {A B : Type} mask (l : list A) (m : list B) :
  List.length l = List.length m ->
  List.length (compress mask l) = List.length (compress mask m).
Proof.
  revert l m. induction mask as [ | b mask IH]; intros [ | x l] [ | y m];
    simpl; intros E; try reflexivity; try discriminate.
  destruct b; simpl; rewrite (IH l m) by congruence; reflexivity.
Qed.

Lemma size_mask_series_same mask s s' :
  size s = size s' -> size (mask_series mask s) = size (mask_series mask s').
Proof.
  unfold size. rewrite !values_mask_series. apply length_compress_same.
Qed.

Lemma nrows_mask_rows mask df n :
  nrows df n ->
  nrows (mask_rows mask df) (List.length (compress mask (repeat tt n))).
Proof.
  unfold nrows, mask_rows. intros W. apply Forall_map.
  eapply Forall_impl; [ | exact W]. intros [c s] E. simpl in *.
  unfold size. rewrite values_mask_series.
  apply length_compress_same. rewrite repeat_length. exact E.
Qed.

Lemma size_parse_dates_column parse s :
  size (parse_dates_column parse s) = size s.
Proof.
  assert (T : size (as_text s) = size s)
    by (destruct s; unfold size; simpl; rewrite ?length_map; reflexivity).
  assert (E : size (Datetime (map (parse_cell parse (as_text s))
                                  (values (as_text s)))) = size s)
    by (rewrite <- T; unfold size; simpl; rewrite !length_map; reflexivity).
  unfold parse_dates_column.
  destruct s; try reflexivity; destruct (forallb _ _); assumption.
Qed.

Lemma nrows_select_columns df cs r n :
  nrows df n -> select_columns df cs = Ok r -> nrows r n.
Proof.
  intros W H. apply select_columns_ok in H as [-> _].
  induction cs as [ | c cs IH]; simpl; [constructor | ].
  destruct (getitem df c) as [s | e] eqn:G; [ | exact IH].
  constructor; [exact (nrows_getitem _ _ _ _ W G) | exact IH].
Qed.

Lemma nrows_path_efficiency final final' n :
  nrows final n ->
  Trabalho11Src.path_efficiency final = Ok final' -> nrows final' n.
Proof.
  unfold Trabalho11Src.path_efficiency, truediv. intros W H.
  apply bind_ok in H as (planned & Gp & H).
  apply bind_ok in H as (actual & Ga & H).
  apply bind_ok in H as (ratio & T & H).
  apply bind_ok in T as (p & Hp & T).
  apply bind_ok in T as (a & Ha & T).
  inversion T; subst; clear T. inversion H; subst; clear H.
  apply nrows_setitem; [exact W | ].
  unfold size. simpl. rewrite length_map, length_zip_with.
  rewrite (size_as_float _ _ Hp), (size_as_float _ _ Ha).
  rewrite (nrows_getitem _ _ _ _ W Gp), (nrows_getitem _ _ _ _ W Ga).
  apply Nat.min_id.
Qed.

(** X5.  The script keeps the table rectangular: read from a table whose
    columns have one length, the final rows, the printed table and every
    chart have one common number of rows, so each chart gets as many
    heights as labels. *)
Theorem final_results_rectangular parse df n out :
  nrows df n ->
  Trabalho11Src.main parse df = Ok out ->
  exists k,
    k <= n /\
    nrows (Trabalho11Src.final out) k /\
    nrows (Trabalho11Src.printed out) k /\
    forall b, In b (Trabalho11Src.charts out) ->
      size (Trabalho11Src.bar_x b) = k /\
      size (Trabalho11Src.bar_height b) = k.
Proof.
  unfold Trabalho11Src.main. intros W H.
  apply bind_ok in H as (df1 & R & H).
  apply bind_ok in H as (df2 & S & H).
  apply bind_ok in H as (fin & L & H).
  apply bind_ok in H as (pr & P & H).
  apply bind_ok in H as (c1 & B1 & H).
  apply bind_ok in H as (c2 & B2 & H).
  apply bind_ok in H as (fin' & PE & H).
  apply bind_ok in H as (c3 & B3 & H).
  apply bind_ok in H as (c4 & B4 & H).
  inversion H; subst; clear H. simpl.
  assert (W1 : nrows df1 n).
  { unfold read_csv_parse_dates in R.
    destruct (getitem df "timestamp") as [ts | e] eqn:Gt; [ | discriminate].
    inversion R; subst. apply nrows_setitem; [exact W | ].
    rewrite size_parse_dates_column. apply (nrows_getitem _ _ _ _ W Gt). }
  unfold Trabalho11Src.select_methods in S.
  apply bind_ok in S as (m & Gm & S). inversion S; subst; clear S.
  assert (W2 := nrows_mask_rows (isin m Trabalho11Src.methods) _ _ W1).
  unfold Trabalho11Src.last_per_method, groupby_tail in L.
  apply bind_ok in L as (key & Gk & L). inversion L; subst; clear L.
  assert (W3 := nrows_mask_rows (tail_mask 1 key) _ _ W2).
  set (k := List.length
              (compress (tail_mask 1 key)
                 (repeat tt
                    (List.length
                       (compress (isin m Trabalho11Src.methods)
                                 (repeat tt n)))))) in *.
  assert (W4 := nrows_path_efficiency _ _ _ W3 PE).
  assert (Le : forall (A : Type) mask (l : list A),
             List.length (compress mask l) <= List.length l).
  { intros A mask. induction mask as [ | b mask IH]; intros [ | x l];
      simpl; try lia. destruct b; simpl; specialize (IH l); lia. }
  exists k. split; [ | split; [exact W4 | split]].
  - unfold k. etransitivity; [apply Le | ]. rewrite repeat_length.
    etransitivity; [apply Le | ]. rewrite repeat_length. lia.
  - apply (nrows_select_columns _ _ _ _ W3 P).
  - assert (B : forall final x h b,
               nrows final k -> Trabalho11Src.bar final x h = Ok b ->
               size (Trabalho11Src.bar_x b) = k /\
               size (Trabalho11Src.bar_height b) = k).
    { intros final x h b Wf Hb. unfold Trabalho11Src.bar in Hb.
      apply bind_ok in Hb as (a & Ga & Hb).
      apply bind_ok in Hb as (c & Gc & Hb). inversion Hb; subst. simpl.
      split; eapply nrows_getitem; eassumption. }
    intros b [<- | [<- | [<- | [<- | []]]]]; eauto.
Qed.

Lemma final_results_rectangular_witness :
  exists out k,
    Trabalho11Src.main Sample.iso_date Sample.runs = Ok out /\
    k <= 4 /\
    forall b, In b (Trabalho11Src.charts out) ->
      size (Trabalho11Src.bar_x b) = k /\
      size (Trabalho11Src.bar_height b) = k.
Proof.
  assert (W : nrows Sample.runs 4) by (repeat constructor).
  destruct (Trabalho11Src.main Sample.iso_date Sample.runs) as [out | e]
    eqn:R; [ | vm_compute in R; discriminate].
  destruct (final_results_rectangular _ _ _ _ W R) as (k & Lk & _ & _ & B).
  exists out, k. split; [reflexivity | ]. split; assumption.
Defined.

(** ** The mean costs: timestamps *)

(** X14.  The chart of mean costs never depends on the timestamps: however
    they parse, the script draws the same two series with the same limits.
    Yet line 6 makes it stop with [KeyError] on a table that has no
    timestamp column. *)
Theorem mean_costs_ignore_timestamps df :
  (forall parse parse',
     Trabalho5.main parse df = Trabalho5.main parse' df) /\
  (~ In "timestamp"%string (columns df) ->
   forall parse, Trabalho5.main parse df = Raise (KeyError "timestamp")).
Proof.
  split.
  - intros parse parse'. unfold Trabalho5.main, Trabalho1.ingest.
    destruct (getitem df "timestamp") as [ts | e]; [ | reflexivity].
    cbn [bind].
    rewrite !getitem_setitem_other by discriminate. reflexivity.
  - intros N parse. unfold Trabalho5.main, Trabalho1.ingest.
    rewrite (getitem_missing _ _ N). reflexivity.
Qed.

(** ** The mean costs: limits without values *)

Section EmptyLimits.

Local Open Scope float_scope.

(** X15.  The shared limits of lines 11 and 12 are not symmetric in the two
    series.  When the start-point series has no present value both limits
    are NaN, whatever the obstacle series holds; when only the obstacle
    series has none, the limits are the minimum and maximum of the
    start-point series. *)
Theorem limits_without_values parse df a0 a1 :
  Trabalho5.main parse df = Ok (a0, a1) ->
  ((forall y, In y (Trabalho5.line_y a0) -> F64.notna y = false) ->
   Trabalho5.ylim a0 = (nan, nan) /\ Trabalho5.ylim a1 = (nan, nan)) /\
  ((forall y, In y (Trabalho5.line_y a1) -> F64.notna y = false) ->
   Trabalho5.ylim a0 = (series_min (Trabalho5.line_y a0),
                        series_max (Trabalho5.line_y a0)) /\
   Trabalho5.ylim a1 = Trabalho5.ylim a0).
Proof.
  unfold Trabalho5.main. intros H.
  apply bind_ok in H as (df1 & _ & H).
  apply bind_ok in H as (sp & _ & H).
  apply bind_ok in H as (cost & _ & H).
  apply bind_ok in H as (g0 & _ & H).
  apply bind_ok in H as (oa & _ & H).
  apply bind_ok in H as (g1 & _ & H).
  inversion H; subst; clear H. simpl. split.
  - intros A. rewrite (series_min_absent _ A), (series_max_absent _ A).
    rewrite fmin_nan_l, fmax_nan_l. split; reflexivity.
  - intros A. rewrite (series_min_absent _ A), (series_max_absent _ A).
    rewrite fmin_nan_r, fmax_nan_r. split; reflexivity.
Qed.

(** On a table whose start-point counts are all missing both limits are
    NaN, although the obstacle series ranges over 5 and 25. *)
Lemma limits_without_values_witness :
  exists a0 a1,
    Trabalho5.main Sample.iso_date
      [("timestamp"%string, Object [None; None]);
       ("start_points"%string, Float64 [nan; nan]);
       ("obstacles_amount"%string, Int64 [1; 2]%Z);
       ("time_to_finish_in_micros"%string, Int64 [5; 25]%Z)] = Ok (a0, a1) /\
    Trabalho5.line_y a1 = [5; 25] /\
    Trabalho5.ylim a0 = (nan, nan) /\ Trabalho5.ylim a1 = (nan, nan).
Proof.
  destruct (Trabalho5.main Sample.iso_date
      [("timestamp"%string, Object [None; None]);
       ("start_points"%string, Float64 [nan; nan]);
       ("obstacles_amount"%string, Int64 [1; 2]%Z);
       ("time_to_finish_in_micros"%string, Int64 [5; 25]%Z)])
    as [[a0 a1] | e] eqn:R; [ | vm_compute in R; discriminate].
  exists a0, a1. split; [reflexivity | ].
  destruct (limits_without_values _ _ _ _ R) as [A _].
  vm_compute in R. inversion R; subst; clear R.
  split; [reflexivity | ]. apply A. simpl. tauto.
Defined.

End EmptyLimits.

(** ** The last rows of the last rows *)

Lemma compress_all_Some mask (ks : list (option scalar)) :
  (forall i, nth_error mask i = Some true ->
             exists k, nth_error ks i = Some (Some k)) ->
  compress mask ks = map Some (present (compress mask ks)).
Proof.
  revert ks. induction mask as [ | b mask IH]; intros [ | o ks] H;
    try reflexivity.
  simpl. destruct b.
  - destruct (H 0 eq_refl) as [k E]. simpl in E. inversion E; subst.
    simpl. f_equal. apply IH. intros i Hi. apply (H (S i)). exact Hi.
  - apply IH. intros i Hi. apply (H (S i)). exact Hi.
Qed.

Lemma tail_mask_distinct l :
  NoDup l ->
  map (within_last 1) (cumcount_desc (map Some l))
  = repeat true (List.length l).
Proof.
  induction l as [ | x l IH]; simpl; intros N; [reflexivity | ].
  inversion N as [ | ? ? Nx Nl]; subst.
  rewrite cumcount_desc_zero, present_map_Some, IH by exact Nl.
  destruct (existsb (scalar_eqb x) l) eqn:X; [ | reflexivity].
  apply existsb_scalar in X. contradiction.
Qed.

Lemma compress_all_true {A : Type} (l : list A) :
  compress (repeat true (List.length l)) l = l.
Proof.
  induction l as [ | x l IH]; simpl; congruence.
Qed.

Lemma mask_series_all_true s :
  mask_series (repeat true (size s)) s = s.
Proof.
  unfold size.
  destruct s; simpl; rewrite length_map; rewrite compress_all_true;
    reflexivity.
Qed.

Lemma mask_rows_all_true df n :
  nrows df n -> mask_rows (repeat true n) df = df.
Proof.
  unfold nrows. induction df as [ | [c s] df IH]; simpl; intros W;
    [reflexivity | ].
  inversion W as [ | ? ? Hs Wd]; subst. simpl in *.
  rewrite IH by exact Wd. rewrite mask_series_all_true. reflexivity.
Qed.

(** X6.  The final rows hold one row per method, so taking the last row of
    each method again (line 10 applied to its own result) changes
    nothing. *)
Theorem last_per_method_idempotent df n final :
  nrows df n ->
  Trabalho11Src.last_per_method df = Ok final ->
  Trabalho11Src.last_per_method final = Ok final.
Proof.
  intros W H. unfold Trabalho11Src.last_per_method, groupby_tail in *.
  apply bind_ok in H as (key & Gk & H). inversion H; subst; clear H.
  rewrite (getitem_mask_rows_ok _ _ _ _ Gk). cbn [bind]. f_equal.
  set (t := tail_mask 1 key).
  assert (A : group_keys (mask_series t key)
              = map Some (present (compress t (group_keys key)))).
  { rewrite group_keys_mask_series. apply compress_all_Some.
    intros i Hi. unfold t, tail_mask in Hi.
    apply nth_error_tail_mask in Hi. destruct Hi as (k & E & _). eauto. }
  assert (D : NoDup (present (compress t (group_keys key)))).
  { unfold t, tail_mask. rewrite tail_mask_last_seen. apply NoDup_last_seen. }
  assert (M : tail_mask 1 (mask_series t key)
              = repeat true (size (mask_series t key))).
  { unfold tail_mask at 1. rewrite A, (tail_mask_distinct _ D).
    f_equal. unfold size.
    assert (L : List.length (group_keys (mask_series t key))
                = List.length (values (mask_series t key)))
      by (unfold group_keys; apply length_map).
    rewrite <- L, A, length_map. reflexivity. }
  rewrite M. apply mask_rows_all_true.
  assert (W' := nrows_mask_rows t _ _ W).
  assert (S : size (mask_series t key)
              = List.length (compress t (repeat tt n))).
  { apply (nrows_getitem _ _ _ _ W' (getitem_mask_rows_ok _ _ _ _ Gk)). }
  rewrite S. exact W'.
Qed.

Lemma last_per_method_idempotent_witness :
  exists final,
    Trabalho11Src.last_per_method Sample.interleaved = Ok final /\
    Trabalho11Src.last_per_method final = Ok final.
Proof.
  assert (W : nrows Sample.interleaved 3) by (repeat constructor).
  destruct (Trabalho11Src.last_per_method Sample.interleaved)
    as [final | e] eqn:R; [ | vm_compute in R; discriminate].
  exists final. split; [reflexivity | ].
  apply (last_per_method_idempotent _ _ _ W R).
Defined.

(** ** The figures of [trabalho-11] *)

Lemma nrows_take_rows idx df n :
  nrows df n ->
  nrows (take_rows idx df) (List.length (take idx (repeat tt n))).
Proof.
  unfold nrows, take_rows. intros W. apply Forall_map.
  eapply Forall_impl; [ | exact W]. intros [c s] E. simpl in *.
  unfold size in *.
  destruct s; simpl in *; rewrite <- ?take_map;
    apply length_take_same; rewrite E, repeat_length; reflexivity.
Qed.

Lemma nrows_extra_steps df df' n :
  nrows df n -> Trabalho11.extra_steps df = Ok df' -> nrows df' n.
Proof.
  intros W H. unfold Trabalho11.extra_steps in H.
  apply bind_ok in H as (made & Gm & H).
  apply bind_ok in H as (planned & Gp & H).
  apply bind_ok in H as (diff & D & H).
  apply bind_ok in H as (diff' & Gd & H).
  apply bind_ok in H as (clipped & C & H).
  rewrite getitem_setitem_same in Gd.
  inversion Gd; subst diff'. inversion H; subst df'. clear Gd H.
  rewrite setitem_twice. apply nrows_setitem; [exact W | ].
  rewrite (size_clip_lower _ _ _ C).
  eapply size_sub; eauto using nrows_getitem.
Qed.

Lemma line_sizes df n x y l :
  nrows df n -> Trabalho1.line df x y = Ok l ->
  size (fst l) = n /\ size (snd l) = n.
Proof.
  intros W H. unfold Trabalho1.line in H.
  apply bind_ok in H as (a & Ga & H).
  apply bind_ok in H as (b & Gb & H). inversion H; subst. simpl.
  split; eapply nrows_getitem; eassumption.
Qed.

(** X13.  Read from a table whose columns have one length, the five lines
    of the three figures all have the same number of points, on x and on
    y: sorting and deriving keep the table rectangular. *)
Theorem figures_rectangular parse argsort df n figs :
  nrows df n ->
  Trabalho11.main parse argsort df = Ok figs ->
  exists k,
    forall l,
      In l (Trabalho11.steps figs ++ [Trabalho11.extra figs]
            ++ Trabalho11.events figs) ->
      size (fst l) = k /\ size (snd l) = k.
Proof.
  unfold Trabalho11.main. intros W H.
  apply bind_ok in H as (df1 & R & H).
  apply bind_ok in H as (df2 & S & H).
  apply bind_ok in H as (df3 & E & H).
  apply bind_ok in H as (l1 & L1 & H).
  apply bind_ok in H as (l2 & L2 & H).
  apply bind_ok in H as (l3 & L3 & H).
  apply bind_ok in H as (l4 & L4 & H).
  apply bind_ok in H as (l5 & L5 & H).
  inversion H; subst; clear H. simpl.
  assert (W1 : nrows df1 n).
  { unfold read_csv_parse_dates in R.
    destruct (getitem df "timestamp") as [ts | e] eqn:Gt; [ | discriminate].
    inversion R; subst. apply nrows_setitem; [exact W | ].
    rewrite size_parse_dates_column. apply (nrows_getitem _ _ _ _ W Gt). }
  unfold sort_values in S.
  apply bind_ok in S as (ts & Gt & S). inversion S; subst; clear S.
  assert (W2 := nrows_take_rows (order argsort ts) _ _ W1).
  assert (W3 := nrows_extra_steps _ _ _ W2 E).
  exists (List.length (take (order argsort ts) (repeat tt n))).
  intros l [<- | [<- | [<- | [<- | [<- | []]]]]];
    eapply line_sizes; eassumption.
Qed.

Lemma figures_rectangular_witness :
  exists figs k,
    Trabalho11.main Sample.iso_date Sample.swap Sample.ticks = Ok figs /\
    size (fst (Trabalho11.extra figs)) = k /\
    size (snd (Trabalho11.extra figs)) = k.
Proof.
  assert (W : nrows Sample.ticks 2) by (repeat constructor).
  destruct (Trabalho11.main Sample.iso_date Sample.swap Sample.ticks)
    as [figs | e] eqn:R; [ | vm_compute in R; discriminate].
  destruct (figures_rectangular _ _ _ _ _ W R) as [k K].
  exists figs, k. split; [reflexivity | ].
  apply K. apply in_or_app. right. left. reflexivity.
Defined.

(** ** The mean costs: the x axis *)

Lemma leb_canon_l f g : (F64.canon f <=? g)%float = (f <=? g)%float.
Proof.
  unfold F64.canon. destruct (F64.is_zero f) eqn:Z; [ | reflexivity].
  apply is_zero_spec in Z. destruct Z as [s Z].
  rewrite !leb_spec, Z. change (Prim2SF 0) with (S754_zero false).
  destruct (Prim2SF g) as [[] | [] | | [] m e]; reflexivity.
Qed.

Lemma leb_canon_r f g : (f <=? F64.canon g)%float = (f <=? g)%float.
Proof.
  unfold F64.canon. destruct (F64.is_zero g) eqn:Z; [ | reflexivity].
  apply is_zero_spec in Z. destruct Z as [s Z].
  rewrite !leb_spec, Z. change (Prim2SF 0) with (S754_zero false).
  destruct (Prim2SF f) as [[] | [] | | [] m e]; reflexivity.
Qed.

(** Cells compare as their keys do. *)
Lemma scalar_leb_key x y kx ky :
  group_key x = Some kx -> group_key y = Some ky ->
  scalar_leb x y = scalar_leb kx ky.
Proof.
  destruct x, y; simpl; intros Hx Hy; inversion Hx; inversion Hy; subst;
    simpl; try reflexivity.
  rewrite leb_canon_l, leb_canon_r. reflexivity.
Qed.

Lemma Sorted_labels (f : scalar -> scalar) ks :
  (forall k, In k ks -> group_key (f k) = Some k) ->
  Sorted ascending ks -> Sorted ascending (map f ks).
Proof.
  intros K S. induction S as [ | k ks S IH H]; simpl; [constructor | ].
  constructor.
  - apply IH. intros j I. apply K. right. exact I.
  - destruct H as [ | j ks H]; simpl; constructor.
    unfold ascending in *.
    rewrite (scalar_leb_key _ _ k j); [exact H | | ];
      apply K; simpl; auto.
Qed.

Lemma label_keys (f : scalar -> scalar) ks :
  (forall k, In k ks -> group_key (f k) = Some k) ->
  map group_key (map f ks) = map Some ks.
Proof.
  intros K. rewrite map_map. apply map_ext_in. exact K.
Qed.

Lemma NoDup_map_Some {A : Type} (l : list A) : NoDup l -> NoDup (map Some l).
Proof.
  induction 1 as [ | x l N D IH]; simpl; constructor; [ | exact IH].
  rewrite in_map_iff. intros (y & E & I). inversion E; subst. contradiction.
Qed.

Lemma groupby_mean_keys key val groups :
  groupby_mean key val = Ok groups ->
  map fst groups = map (group_label (values key)) (map fst (indices key)) /\
  List.length (map snd groups) = List.length (map fst groups).
Proof.
  unfold groupby_mean. intros H. apply bind_ok in H as (v & _ & H).
  inversion H; subst. rewrite !map_map, !length_map. simpl.
  split; reflexivity.
Qed.

(** X16.  Each of the two lines has one point per distinct key of its
    grouping column: its x values are cells of the column, no two of them
    have one key, and every key the column holds is the key of one of
    them.  The x values ascend without repeating, so that the line is
    drawn from left to right, and each has its y value. *)
Theorem mean_costs_ascend parse df a0 a1 :
  Trabalho5.main parse df = Ok (a0, a1) ->
  exists start_points obstacles_amount,
    getitem df "start_points" = Ok start_points /\
    getitem df "obstacles_amount" = Ok obstacles_amount /\
    forall a key,
      (a, key) = (a0, start_points) \/ (a, key) = (a1, obstacles_amount) ->
      Sorted ascending (Trabalho5.line_x a) /\
      NoDup (Trabalho5.line_x a) /\
      List.length (Trabalho5.line_y a) = List.length (Trabalho5.line_x a) /\
      (forall x, In x (Trabalho5.line_x a) -> In x (values key)) /\
      NoDup (map group_key (Trabalho5.line_x a)) /\
      (forall k, In (Some k) (group_keys key) <->
                 In (Some k) (map group_key (Trabalho5.line_x a))).
Proof.
  unfold Trabalho5.main. intros H.
  apply bind_ok in H as (df1 & I & H).
  apply bind_ok in H as (sp & Gs & H).
  apply bind_ok in H as (cost & _ & H).
  apply bind_ok in H as (g0 & M0 & H).
  apply bind_ok in H as (oa & Go & H).
  apply bind_ok in H as (g1 & M1 & H).
  inversion H; subst; clear H.
  rewrite (ingest_keeps _ _ _ _ I) in Gs by discriminate.
  rewrite (ingest_keeps _ _ _ _ I) in Go by discriminate.
  exists sp, oa. split; [exact Gs | ]. split; [exact Go | ].
  assert (P : forall key val g,
             groupby_mean key val = Ok g ->
             Sorted ascending (map fst g) /\
             NoDup (map fst g) /\
             List.length (map snd g) = List.length (map fst g) /\
             (forall x, In x (map fst g) -> In x (values key)) /\
             NoDup (map group_key (map fst g)) /\
             (forall k, In (Some k) (group_keys key) <->
                        In (Some k) (map group_key (map fst g)))).
  { intros key val g M. apply groupby_mean_keys in M. destruct M as [K L].
    assert (F : forall k, In k (map fst (indices key)) ->
                  In (group_label (values key) k) (values key) /\
                  group_key (group_label (values key) k) = Some k).
    { intros k J. apply group_label_key.
      apply in_map_iff in J. destruct J as ([k' idx] & <- & J).
      apply In_indices in J. tauto. }
    assert (E : map group_key (map fst g) = map Some (map fst (indices key)))
      by (rewrite K; apply label_keys; intros k J; apply F, J).
    assert (D : NoDup (map group_key (map fst g)))
      by (rewrite E; apply NoDup_map_Some, NoDup_indices_keys).
    split; [rewrite K; apply Sorted_labels;
            [intros k J; apply F, J | apply Sorted_indices] | ].
    split; [exact (NoDup_map_inv _ _ D) | ].
    split; [exact L | ].
    split.
    - rewrite K. intros x J. apply in_map_iff in J.
      destruct J as (k & <- & J). apply F, J.
    - split; [exact D | ]. intros k. rewrite E. split.
      + intros J. apply in_map.
        apply in_map_iff. exists (k, flatnonzero (map (has_key k) (group_keys key))).
        split; [reflexivity | ]. apply In_indices. auto.
      + intros J. apply in_map_iff in J. destruct J as (k' & E' & J).
        inversion E'; subst.
        apply in_map_iff in J. destruct J as ([k'' idx] & <- & J).
        apply In_indices in J. tauto. }
  intros a key [E | E]; inversion E; subst; simpl; eapply P; eassumption.
Qed.

(** On the sample costs the line over the start-point counts has the two
    points 3 and 5. *)
Lemma mean_costs_ascend_witness :
  exists a0 a1,
    Trabalho5.main Sample.iso_date Sample.costs = Ok (a0, a1) /\
    Trabalho5.line_x a0 = [SInt 3; SInt 5] /\
    Sorted ascending (Trabalho5.line_x a0) /\
    forall k, In (Some k) (group_keys (Int64 [5; 3; 5; 3; 5]%Z)) <->
              In (Some k) (map group_key (Trabalho5.line_x a0)).
Proof.
  destruct (Trabalho5.main Sample.iso_date Sample.costs) as [[a0 a1] | e]
    eqn:R; [ | vm_compute in R; discriminate].
  exists a0, a1. split; [reflexivity | ].
  destruct (mean_costs_ascend _ _ _ _ R) as (sp & oa & Gs & _ & P).
  vm_compute in Gs. inversion Gs; subst sp; clear Gs.
  destruct (P a0 _ (or_introl eq_refl)) as (S & _ & _ & _ & _ & K).
  split; [ | split; [exact S | exact K]].
  vm_compute in R. inversion R; subst. reflexivity.
Defined.

(** ** The extra-steps derivation: the int64 range *)

Lemma wrap_range z : (I64.min_int <= I64.wrap z <= I64.max_int)%Z.
Proof.
  unfold I64.wrap, I64.min_int, I64.max_int.
  assert (H := Z.mod_pos_bound (z + 2 ^ 63) (2 ^ 64) ltac:(lia)). lia.
Qed.

(** X11.  On int64 columns the derived column is int64 again, with a cell
    for each row, and every cell lies between 0 and [2^63 - 1]: whatever
    the subtraction does, the clip leaves no negative cell and nothing
    leaves the type. *)
Theorem extra_steps_int64_range df a b :
  getitem df "how_many_steps_agents_made" = Ok (Int64 a) ->
  getitem df "total_agents_path_length" = Ok (Int64 b) ->
  exists df' e,
    Trabalho11.extra_steps df = Ok df' /\
    getitem df' "extra_steps" = Ok (Int64 e) /\
    List.length e = Nat.min (List.length a) (List.length b) /\
    Forall (fun z => (0 <= z <= I64.max_int)%Z) e.
Proof.
  intros Ga Gb.
  exists (setitem df "extra_steps"
            (Int64 (map (Z.max 0) (zip_with I64.sub a b)))),
    (map (Z.max 0) (zip_with I64.sub a b)).
  split; [ | split; [ | split]].
  - apply (extra_steps_runs df _ _ (Int64 (zip_with I64.sub a b)) _ Ga Gb);
      reflexivity.
  - apply getitem_setitem_same.
  - rewrite length_map. apply length_zip_with.
  - apply Forall_forall. intros z I. apply in_map_iff in I.
    destruct I as (d & <- & I).
    assert (R : exists u, d = I64.wrap u).
    { clear - I. revert b I. induction a as [ | x a IH]; intros [ | y b];
        simpl; try tauto. intros [<- | I]; [eexists; reflexivity | eauto]. }
    destruct R as [u ->]. assert (W := wrap_range u).
    unfold I64.min_int, I64.max_int in *. lia.
Qed.

Lemma extra_steps_int64_range_witness :
  exists df' e,
    Trabalho11.extra_steps Sample.steps = Ok df' /\
    getitem df' "extra_steps" = Ok (Int64 e) /\
    List.length e = 3 /\
    Forall (fun z => (0 <= z <= I64.max_int)%Z) e.
Proof.
  destruct (extra_steps_int64_range Sample.steps _ _ eq_refl eq_refl)
    as (df' & e & R & G & L & F).
  exists df', e. repeat split; assumption.
Defined.
